(** * coco.js: colour conversion between RGB, CMYK and HEX

    A shallow embedding of [coco.js], of its validators, converters and
    formatters, of the handlers of its change events and of the loading of
    its preferences, and the properties stated about them.

    - JavaScript numbers are IEEE 754 binary64 values: they are modelled by
      the primitive type [float], whose operations are the processor's.
      What is proved of these operations for all numbers rests on their
      specification in the standard library ([SpecFloat], [FloatAxioms]);
      over the 256 values of a channel the functions are evaluated.
    - JavaScript strings are sequences of UTF-16 code units: [jsstring].
    - The two preferences [isHexSharp] and [isCMYKPercent] are global
      string variables of the script: they live in a record [prefs] that is
      passed to the functions reading them.
    - Arrays are mutable objects: they live in a [heap] and are passed by
      reference.
    - The page is a record [page]: the values of the inputs that the
      script reads and writes through jQuery, the switches of the option
      menu, the colour of the demo area and the messages of [alert].  The
      handlers of the change events are functions on it.
    - The local storage of the browser is a finite map of strings. *)

From Stdlib Require Import ZArith Bool Lia Floats Reals Lra.
From Stdlib Require Strings.String Strings.Ascii.
From Stdlib Require Uint63.
From stdpp Require Import base option list strings gmap.

Local Open Scope Z_scope.

(** ** Numbers *)

Module Num.

(** The number denoted by an integer literal or produced by an integer
    computation: the binary64 value nearest to [z].  An integer of at
    most 63 bits is converted by the processor. *)
Definition of_pos (p : positive) : float :=
  if Zpos p <? 2 ^ 63 then of_uint63 (Uint63.of_Z (Zpos p))
  else SF2Prim (binary_round prec emax false p 0).

Definition of_Z (z : Z) : float :=
  match z with
  | Z0 => zero
  | Zpos p => of_pos p
  | Zneg p => (- of_pos p)%float
  end.

(** The global function [isNaN], on a number. *)
Definition isNaN (x : float) : bool := is_nan x.

(** [Math.min] on two numbers: NaN if either is NaN, and -0 is smaller
    than +0. *)
Definition Math_min (a b : float) : float :=
  if is_nan a || is_nan b then nan
  else if (a <? b)%float then a
  else if (b <? a)%float then b
  else if is_zero a && get_sign a then a else b.

(** [floor (m * 2^e + 1/2)], the integer nearest to the dyadic number
    [m * 2^e], a tie going up. *)
Definition round_half_up (m e : Z) : Z :=
  match e with
  | Zneg p => (2 * m + Z.pow_pos 2 p) / Z.pow_pos 2 (Pos.succ p)
  | _ => m * 2 ^ e
  end.

(** [Math.round]: the nearest integer, a tie going towards +infinity; NaN,
    the infinities and the zeros are returned as they are, and a negative
    number that rounds to zero gives -0. *)
Definition Math_round (x : float) : float :=
  match Prim2SF x with
  | S754_finite s m e =>
      if 0 <=? e then x
      else
        let n := round_half_up (if s then Zneg m else Zpos m) e in
        if n =? 0 then (if s then neg_zero else zero) else of_Z n
  | _ => x
  end.

(** [ToIntegerOrInfinity], as the string methods apply it to a position
    argument: NaN and the zeros give 0, a finite number is truncated
    towards zero; [None] stands for an infinity. *)
Definition to_integer (x : float) : option Z :=
  match Prim2SF x with
  | S754_nan | S754_zero _ => Some 0
  | S754_infinity _ => None
  | S754_finite s m e =>
      let n := match e with
               | Zneg p => Zpos m / Z.pow_pos 2 p
               | _ => Zpos m * 2 ^ e
               end in
      Some (if s then - n else n)
  end.

(** The remainder operator [x % y]: the exact value of
    [x - y * trunc (x / y)], with the sign of [x]. *)
Definition rem (x y : float) : float :=
  match Prim2SF x, Prim2SF y with
  | S754_nan, _ | _, S754_nan => nan
  | S754_infinity _, _ => nan
  | _, S754_zero _ => nan
  | S754_zero _, _ => x
  | S754_finite _ _ _, S754_infinity _ => x
  | S754_finite sx mx ex, S754_finite _ my ey =>
      let e := Z.min ex ey in
      let r := (Zpos mx * 2 ^ (ex - e)) mod (Zpos my * 2 ^ (ey - e)) in
      if r =? 0 then (if sx then neg_zero else zero)
      else SF2Prim (binary_normalize prec emax (if sx then - r else r) e false)
  end.

End Num.

Import Num.

(** ** Strings *)

Module Str.

(** A string is the list of its UTF-16 code units. *)
Definition jsstring : Type := list N.

(** The string written by an ASCII literal. *)
Definition str (s : String.string) : jsstring :=
  map Ascii.N_of_ascii (String.list_ascii_of_string s).
Arguments str s%_string.

Definition eqb (a b : jsstring) : bool := bool_decide (a = b).

(** [s.charAt(pos)]: the one-unit string at [pos], or the empty string
    when [pos] is out of range. *)
Definition charAt (s : jsstring) (pos : Z) : jsstring :=
  if pos <? 0 then []
  else match s !! Z.to_nat pos with
       | Some c => [c]
       | None => []
       end.

(** [charAt] with a computed position. *)
Definition charAt_num (s : jsstring) (pos : float) : jsstring :=
  match to_integer pos with
  | Some i => charAt s i
  | None => []
  end.

(** [s.substr(start, len)]: at most [len] units from [start]; a negative
    [start] counts from the end. *)
Definition substr (s : jsstring) (start len : Z) : jsstring :=
  let size := Z.of_nat (length s) in
  let from := if start <? 0 then Z.max (size + start) 0 else Z.min start size in
  take (Z.to_nat len) (drop (Z.to_nat from) s).

Local Open Scope N_scope.

(** The upper-case mapping of one code unit.  [toUpperCase] applies the
    case mapping of the Unicode character database, with the mappings of
    its file SpecialCasing.txt that depend on no context (ECMAScript,
    String.prototype.toUpperCase), so a unit can map to several: the
    sharp s U+00DF to [SS], the ligatures U+FB00 to U+FB06 to [FF], [FI],
    [FL], [FFI], [FFL], [ST] and [ST].  The ranges modelled here are Basic
    Latin, the Latin-1 Supplement and these ligatures; a unit of another
    range is left as it is. *)
Definition upper_unit (c : N) : list N :=
  if (97 <=? c) && (c <=? 122) then [c - 32]
  else if c =? 181 then [924]
  else if c =? 223 then [83; 83]
  else if ((224 <=? c) && (c <=? 246)) || ((248 <=? c) && (c <=? 254))
       then [c - 32]
  else if c =? 255 then [376]
  else if c =? 64256 then [70; 70]
  else if c =? 64257 then [70; 73]
  else if c =? 64258 then [70; 76]
  else if c =? 64259 then [70; 70; 73]
  else if c =? 64260 then [70; 70; 76]
  else if (c =? 64261) || (c =? 64262) then [83; 84]
  else [c].

(** [s.toUpperCase()]. *)
Definition toUpperCase (s : jsstring) : jsstring :=
  flat_map upper_unit s.

(** White space and line terminators, as [parseInt] skips them. *)
Definition is_white (c : N) : bool :=
  ((9 <=? c) && (c <=? 13)) || (c =? 32) || (c =? 160) || (c =? 5760)
  || ((8192 <=? c) && (c <=? 8202)) || (c =? 8232) || (c =? 8233)
  || (c =? 8239) || (c =? 8287) || (c =? 12288) || (c =? 65279).

(** The value of a code unit as a digit: 0-9, then the letters of either
    case from 10. *)
Definition digit_value (c : N) : option Z :=
  if (48 <=? c) && (c <=? 57) then Some (Z.of_N (c - 48))
  else if (65 <=? c) && (c <=? 90) then Some (Z.of_N (c - 55))
  else if (97 <=? c) && (c <=? 122) then Some (Z.of_N (c - 87))
  else None.

Local Close Scope N_scope.

Fixpoint skip_white (s : jsstring) : jsstring :=
  match s with
  | c :: s' => if is_white c then skip_white s' else s
  | [] => []
  end.

(** The values of the longest prefix of [s] made of digits of [radix]. *)
Fixpoint digits_prefix (radix : Z) (s : jsstring) : list Z :=
  match s with
  | [] => []
  | c :: s' =>
      match digit_value c with
      | Some d => if d <? radix then d :: digits_prefix radix s' else []
      | None => []
      end
  end.

(** [parseInt(s, radix)] for a radix from 2 to 36: white space is
    skipped, then a sign, then with radix 16 a prefix [0x] or [0X]; the
    digits that follow are read, and no digit at all gives NaN. *)
Definition parseInt (s : jsstring) (radix : Z) : float :=
  let s := skip_white s in
  let '(neg, s) := match s with
                   | 45%N :: r => (true, r)
                   | 43%N :: r => (false, r)
                   | _ => (false, s)
                   end in
  let s := if radix =? 16
           then match s with
                | 48%N :: 120%N :: r | 48%N :: 88%N :: r => r
                | _ => s
                end
           else s in
  match digits_prefix radix s with
  | [] => nan
  | ds =>
      let n := of_Z (fold_left (fun a d => radix * a + d) ds 0) in
      if neg then (- n)%float else n
  end.

(** [new RegExp("[0-9ABCEDF]{6}").test(s)]: the pattern has no anchor, so
    it matches when six units in a row, anywhere in [s], are of the
    class. *)
Definition in_class (c : N) : bool :=
  ((48 <=? c) && (c <=? 57))%N
  || bool_decide (c ∈ str "ABCEDF").

Definition matches_here (s : jsstring) : bool :=
  match s with
  | c1 :: c2 :: c3 :: c4 :: c5 :: c6 :: _ =>
      in_class c1 && in_class c2 && in_class c3
      && in_class c4 && in_class c5 && in_class c6
  | _ => false
  end.

Fixpoint regExp_test (s : jsstring) : bool :=
  match s with
  | [] => false
  | _ :: s' => matches_here s || regExp_test s'
  end.

End Str.

Import Str.
Arguments str s%_string.

(** ** Values, preferences and the heap *)

(** The values that the script stores in variables and arrays. *)
Inductive jsval :=
  | VNum (x : float)
  | VStr (s : jsstring).

(** [const HEX_NOT_VALID = -1], line 16. *)
Definition HEX_NOT_VALID : jsval := VNum (-1)%float.

(** The global variables of lines 19-20, strings read from the local
    storage. *)
Record prefs := Prefs {
  isHexSharp : jsstring;
  isCMYKPercent : jsstring
}.

Definition initial_prefs : prefs :=
  {| isHexSharp := str "false"; isCMYKPercent := str "false" |}.

(** ** Validators *)

(** [makeValidRgb(value)], lines 37-45. *)
Definition makeValidRgb (value : float) : float :=
  if isNaN value || (value <? 0)%float then 0%float
  else if (255 <? value)%float then 255%float
  else value.

(** [makeValidCmyk(value)], lines 57-65. *)
Definition makeValidCmyk (value : float) : float :=
  if isNaN value || (value <? 0)%float then 0%float
  else if (1 <? value)%float then 1%float
  else value.

(** ** Converters between RGB and CMYK *)

(** [rgb2cmyk(iR, iG, iB)], lines 113-139.  The black component is computed
    first ([rgb2cmyk_fK]); the returned array is [fC, fM, fY, fK]. *)
Definition rgb2cmyk_fK (iR iG iB : float) : float :=
  let fC := (1 - iR / 255)%float in
  let fM := (1 - iG / 255)%float in
  let fY := (1 - iB / 255)%float in
  let fK := 1%float in
  Math_min fK (Math_min fC (Math_min fM fY)).

Definition rgb2cmyk (iR iG iB : float) : list float :=
  let fC := (1 - iR / 255)%float in
  let fM := (1 - iG / 255)%float in
  let fY := (1 - iB / 255)%float in
  let fK := rgb2cmyk_fK iR iG iB in
  if (fK =? 1)%float then [0%float; 0%float; 0%float; fK]
  else
    let fC := ((fC - fK) / (1 - fK))%float in
    let fM := ((fM - fK) / (1 - fK))%float in
    let fY := ((fY - fK) / (1 - fK))%float in
    [fC; fM; fY; fK].

(** [cmyk2rgb(fC, fM, fY, fK)], lines 151-162. *)
Definition cmyk2rgb (fC fM fY fK : float) : list float :=
  let fC := (fC * (1 - fK) + fK)%float in
  let fM := (fM * (1 - fK) + fK)%float in
  let fY := (fY * (1 - fK) + fK)%float in
  let iR := Math_round ((1 - fC) * 255)%float in
  let iG := Math_round ((1 - fM) * 255)%float in
  let iB := Math_round ((1 - fY) * 255)%float in
  [iR; iG; iB].

(** The composition used by the round-trip property: the array returned by
    [rgb2cmyk] is handed component by component to [cmyk2rgb]. *)
Definition rgb_cmyk_rgb (iR iG iB : float) : option (list float) :=
  match rgb2cmyk iR iG iB with
  | [fC; fM; fY; fK] => Some (cmyk2rgb fC fM fY fK)
  | _ => None
  end.


(** What a call can end in besides a value: an exception of the language,
    or a case that this development does not model. *)
Inductive error := TypeError | RangeError | OutOfModel.

Inductive res (A : Type) :=
  | Ok (a : A)
  | Err (e : error).
Arguments Ok {A} a.
Arguments Err {A} e.

#[global] Instance res_bind : MBind res := λ A B f m,
  match m with
  | Ok a => f a
  | Err e => Err e
  end.

(** Arrays are objects of the heap, named by a location. *)
Abbreviation loc := nat (only parsing).
Abbreviation heap := (gmap nat (list jsval)) (only parsing).

(** ** Numbers as strings *)

Module Fmt.

Fixpoint decimal_aux (fuel : nat) (n : Z) (acc : jsstring) : jsstring :=
  match fuel with
  | O => acc
  | S fuel' =>
      let acc' := (48 + Z.to_N (n mod 10))%N :: acc in
      if n <? 10 then acc' else decimal_aux fuel' (n / 10) acc'
  end.

(** The decimal digits of a natural number, ["0"] for zero. *)
Definition decimal (n : Z) : jsstring :=
  decimal_aux (S (Z.to_nat (Z.log2 n))) n [].

Definition sign_prefix (s : bool) : jsstring :=
  if s then str "-" else [].

(** The integer [m * 2^e], when it is one. *)
Definition integer_value (m : positive) (e : Z) : option Z :=
  match e with
  | Zneg p =>
      if Zpos m mod Z.pow_pos 2 p =? 0 then Some (Zpos m / Z.pow_pos 2 p)
      else None
  | _ => Some (Zpos m * 2 ^ e)
  end.

(** [10^21 <= m * 2^e]. *)
Definition ge_1e21 (m : positive) (e : Z) : bool :=
  match e with
  | Zneg p => 10 ^ 21 * Z.pow_pos 2 p <=? Zpos m
  | _ => 10 ^ 21 <=? Zpos m * 2 ^ e
  end.

(** The conversion of a number to a string, where it is modelled: NaN,
    the infinities, and the integers below [10^21] in magnitude, which
    are written with all their digits. *)
Definition number_to_string (x : float) : res jsstring :=
  match Prim2SF x with
  | S754_nan => Ok (str "NaN")
  | S754_zero _ => Ok (str "0")
  | S754_infinity s => Ok (sign_prefix s ++ str "Infinity")
  | S754_finite s m e =>
      match integer_value m e with
      | Some n =>
          if ge_1e21 m e then Err OutOfModel
          else Ok (sign_prefix s ++ decimal n)
      | None => Err OutOfModel
      end
  end.

(** The digits of [n / 10^f] with [f] digits after the point: the digits
    of [n], zeros added in front up to [f + 1] digits, and the point
    before the last [f]. *)
Definition fixed_digits (n : Z) (f : nat) : jsstring :=
  let m := decimal n in
  let m := if (length m <=? f)%nat
           then replicate (f + 1 - length m) 48%N ++ m
           else m in
  let k := length m in
  if (f =? 0)%nat then m
  else take (k - f) m ++ str "." ++ drop (k - f) m.

(** [x.toFixed(fractionDigits)]: the integer [n] nearest to
    [x * 10^fractionDigits] (the larger one of two) written with
    [fractionDigits] digits after the point. *)
Definition toFixed (x : float) (fractionDigits : Z) : res jsstring :=
  if (fractionDigits <? 0) || (20 <? fractionDigits) then Err RangeError
  else
    let f := Z.to_nat fractionDigits in
    match Prim2SF x with
    | S754_nan => Ok (str "NaN")
    | S754_zero _ => Ok (fixed_digits 0 f)
    | S754_infinity s => Ok (sign_prefix s ++ str "Infinity")
    | S754_finite s m e =>
        if ge_1e21 m e
        then s' ← number_to_string (abs x); Ok (sign_prefix s ++ s')
        else Ok (sign_prefix s
                 ++ fixed_digits (round_half_up (Zpos m * 10 ^ fractionDigits) e) f)
    end.

End Fmt.

Import Fmt.

(** ** HEX validation and conversion *)

(** [makeValidHex(value)], lines 74-102. *)
Definition makeValidHex (value : jsstring) : jsval :=
  let value :=
    if eqb (charAt value 0) (str "#") then substr value 1 6
    else if (6 <? length value)%nat then substr value 0 6
    else value in
  let l := length value in
  if negb (l =? 3)%nat && negb (l =? 6)%nat then HEX_NOT_VALID
  else
    let value :=
      if (l =? 3)%nat
      then charAt value 0 ++ charAt value 0 ++ charAt value 1
           ++ charAt value 1 ++ charAt value 2 ++ charAt value 2
      else value in
    let value := toUpperCase value in
    if negb (regExp_test value) then HEX_NOT_VALID
    else VStr value.

(** [rgb2hex(iR, iG, iB)], lines 173-189. *)
Definition rgb2hex (p : prefs) (iR iG iB : float) : jsstring :=
  let hex := str "0123456789ABCDEF" in
  let value := charAt_num hex ((iR - rem iR 16) / 16)%float
               ++ charAt_num hex (rem iR 16) in
  let value := value ++ (charAt_num hex ((iG - rem iG 16) / 16)%float
                         ++ charAt_num hex (rem iG 16)) in
  let value := value ++ (charAt_num hex ((iB - rem iB 16) / 16)%float
                         ++ charAt_num hex (rem iB 16)) in
  if eqb (isHexSharp p) (str "true") then str "#" ++ value else value.

(** [hex2rgb(sHEX)], lines 198-206. *)
Definition hex2rgb (sHEX : jsstring) : list float :=
  let sR := substr sHEX 0 2 in
  let sG := substr sHEX 2 2 in
  let sB := substr sHEX 4 2 in
  [parseInt sR 16; parseInt sG 16; parseInt sB 16].

(** The composition of [hex2rgb] and [rgb2hex]. *)
Definition hex_rgb_hex (p : prefs) (sHEX : jsstring) : option jsstring :=
  match hex2rgb sHEX with
  | [iR; iG; iB] => Some (rgb2hex p iR iG iB)
  | _ => None
  end.

(** ** Formatting the CMYK values *)

(** The body of the first loop: [Math.round(aCMYK[i] * 100) + " %"].  An
    element that is a string would be converted to a number first, which
    is not modelled. *)
Definition format_percent (v : jsval) : res jsval :=
  match v with
  | VNum x =>
      s ← number_to_string (Math_round (x * 100)%float);
      Ok (VStr (s ++ str " %"))
  | VStr _ => Err OutOfModel
  end.

(** The body of the second loop: [aCMYK[i].toFixed(3)].  A string has no
    method [toFixed]. *)
Definition format_fixed (v : jsval) : res jsval :=
  match v with
  | VNum x => s ← toFixed x 3; Ok (VStr s)
  | VStr _ => Err TypeError
  end.

(** [for (var i = 0; i < aCMYK.length; i++) aCMYK[i] = body(aCMYK[i])]:
    each turn reads the array of the heap and writes it back with its
    element [i] replaced.  [n] bounds the number of turns. *)
Fixpoint format_loop (body : jsval → res jsval) (aCMYK : loc) (n i : nat)
    (h : heap) : res heap :=
  match n with
  | O => Ok h
  | S n' =>
      match h !! aCMYK with
      | None => Err TypeError
      | Some arr =>
          if (i <? length arr)%nat then
            match arr !! i with
            | Some v =>
                v' ← body v;
                format_loop body aCMYK n' (S i) (<[aCMYK := <[i := v']> arr]> h)
            | None => Err TypeError
            end
          else Ok h
      end
  end.

(** [formatCmykOutput(aCMYK)], lines 357-372: the argument is a reference
    to an array, and the same reference is returned. *)
Definition formatCmykOutput (p : prefs) (aCMYK : loc) (h : heap)
    : res (loc * heap) :=
  match h !! aCMYK with
  | None => Err TypeError
  | Some arr =>
      let body := if eqb (isCMYKPercent p) (str "true")
                  then format_percent else format_fixed in
      h' ← format_loop body aCMYK (length arr) 0 h;
      Ok (aCMYK, h')
  end.

(** ** Numeric literals in strings *)

Module Lit.

Definition is_digit (c : N) : bool := ((48 <=? c) && (c <=? 57))%N.

(** The decimal digits at the head of [s], and what follows them. *)
Fixpoint span_digits (s : jsstring) : list Z * jsstring :=
  match s with
  | c :: s' =>
      if is_digit c
      then let '(ds, r) := span_digits s' in (Z.of_N (c - 48) :: ds, r)
      else ([], s)
  | [] => ([], [])
  end.

(** The integer written by the digits [ds] in the radix. *)
Definition digits_value (radix : Z) (ds : list Z) : Z :=
  fold_left (λ a d, radix * a + d) ds 0.

(** A sign at the head of [s]: whether it is [-], and what follows. *)
Definition sign_part (s : jsstring) : bool * jsstring :=
  match s with
  | c :: r =>
      if (c =? 45)%N then (true, r)
      else if (c =? 43)%N then (false, r)
      else (false, s)
  | [] => (false, s)
  end.

(** An exponent part at the head of [s], [e] or [E] with an optional sign
    and at least one digit: its value and what follows; without one, 0 and
    [s]. *)
Definition exponent_part (s : jsstring) : Z * jsstring :=
  match s with
  | c :: r =>
      if ((c =? 101) || (c =? 69))%N then
        let '(neg, r') := sign_part r in
        match span_digits r' with
        | ([], _) => (0, s)
        | (ds, rest) =>
            let v := digits_value 10 ds in
            (if neg then - v else v, rest)
        end
      else (0, s)
  | [] => (0, s)
  end.

(** The longest unsigned decimal literal at the head of [s], [Infinity]
    apart: digits, a fraction and an exponent part, with a digit before or
    after the point.  The literal stands for [n * 10^k]: the result is
    [n], [k] and what follows the literal. *)
Definition unsigned_decimal (s : jsstring) : option (Z * Z * jsstring) :=
  let '(ip, r) := span_digits s in
  let '(fp, r) := match r with
                  | c :: r' => if (c =? 46)%N then span_digits r' else ([], r)
                  | [] => ([], r)
                  end in
  match ip ++ fp with
  | [] => None
  | ds =>
      let '(e, rest) := exponent_part r in
      Some (digits_value 10 ds, e - Z.of_nat (length fp), rest)
  end.

(** The number of the decimal [n * 10^k], for [n] a natural number: the
    binary64 value nearest to it, a tie going to the even mantissa.  A
    negative [k] is a division, rounded once. *)
Definition decimal_number (n k : Z) : float :=
  match n with
  | Zpos p =>
      match k with
      | Zneg q =>
          let '(m, e, l) :=
            SFdiv_core_binary prec emax (Zpos p) 0 (Z.pow_pos 10 q) 0 in
          SF2Prim (binary_round_aux prec emax false m e l)
      | _ => of_Z (Zpos p * 10 ^ k)
      end
  | _ => zero
  end.

(** A signed decimal literal at the head of [s]: its number and what
    follows. *)
Definition signed_decimal (s : jsstring) : option (float * jsstring) :=
  let '(neg, s) := sign_part s in
  let r :=
    if eqb (take 8 s) (str "Infinity") then Some (infinity, drop 8 s)
    else match unsigned_decimal s with
         | Some (n, k, rest) => Some (decimal_number n k, rest)
         | None => None
         end in
  match r with
  | Some (x, rest) => Some (if neg then (- x)%float else x, rest)
  | None => None
  end.

(** [parseFloat(s)]: white space is skipped and the longest decimal
    literal that follows is read; NaN when there is none. *)
Definition parseFloat (s : jsstring) : float :=
  match signed_decimal (skip_white s) with
  | Some (x, _) => x
  | None => nan
  end.

(** [s] without the white space at its ends. *)
Definition trim (s : jsstring) : jsstring :=
  reverse (skip_white (reverse (skip_white s))).

(** The radix of a literal [0x], [0o] or [0b], of either case. *)
Definition radix_prefix (s : jsstring) : option (Z * jsstring) :=
  match s with
  | z :: c :: r =>
      if negb (z =? 48)%N then None
      else if ((c =? 120) || (c =? 88))%N then Some (16, r)
      else if ((c =? 111) || (c =? 79))%N then Some (8, r)
      else if ((c =? 98) || (c =? 66))%N then Some (2, r)
      else None
  | _ => None
  end.

(** The conversion of a string to a number ([ToNumber]): the string
    without the white space at its ends is empty (0), a literal with a
    radix prefix, or a signed decimal literal; any other string gives
    NaN. *)
Definition to_number (s : jsstring) : float :=
  let s := trim s in
  match s with
  | [] => zero
  | _ =>
      match radix_prefix s with
      | Some (radix, r) =>
          let ds := digits_prefix radix r in
          if negb (length r =? 0)%nat && (length ds =? length r)%nat
          then of_Z (digits_value radix ds)
          else nan
      | None =>
          match signed_decimal s with
          | Some (x, []) => x
          | _ => nan
          end
      end
  end.

(** [s.replace(pattern, replacement)] for a pattern and a replacement of
    one unit each: the first occurrence is replaced. *)
Fixpoint replace (s : jsstring) (pattern replacement : N) : jsstring :=
  match s with
  | c :: s' =>
      if (c =? pattern)%N then replacement :: s'
      else c :: replace s' pattern replacement
  | [] => []
  end.

End Lit.

Import Lit.

(** [a == b] on the values of the script: numbers by their order, strings
    unit by unit, a string and a number after the conversion of the
    string. *)
Definition loose_eq (a b : jsval) : bool :=
  match a, b with
  | VNum x, VNum y => (x =? y)%float
  | VStr s, VStr t => eqb s t
  | VStr s, VNum y => (to_number s =? y)%float
  | VNum x, VStr t => (x =? to_number t)%float
  end.

(** ** The validator of a channel on any value *)





(** ** The page *)

(** The page as the script sees it through jQuery: the values of the eight
    text inputs, named as in the selectors [input[name='...']], which
    [val()] reads and [val(v)] sets to the string of [v]; the two switches
    of the option menu (whether each is checked); the colour last given
    to the [background-color] of [#colorDemo]; and the messages shown by
    [alert]. *)
Record page := Page {
  rgb_R : jsstring;
  rgb_G : jsstring;
  rgb_B : jsstring;
  cmyk_C : jsstring;
  cmyk_M : jsstring;
  cmyk_Y : jsstring;
  cmyk_K : jsstring;
  hex : jsstring;
  hex_sharp : bool;
  cmyk_percent : bool;
  colorDemo : option jsstring;
  alerts : list jsstring
}.

(** What a handler returns to jQuery. *)
Inductive returned := ReturnsUndefined | ReturnsFalse.

(** [aCMYK[i]], on an array of the heap; an index out of range would give
    [undefined], which is not a value of the model. *)
Definition element (h : heap) (a : loc) (i : nat) : res jsval :=
  match h !! a with
  | Some arr =>
      match arr !! i with
      | Some v => Ok v
      | None => Err OutOfModel
      end
  | None => Err TypeError
  end.

(** [aRGB[i]], on an array that is only read. *)
Definition item (aRGB : list float) (i : nat) : res float :=
  match aRGB !! i with
  | Some x => Ok x
  | None => Err OutOfModel
  end.

(** The string that [val(v)] stores in an input. *)
Definition to_string (v : jsval) : res jsstring :=
  match v with
  | VNum x => number_to_string x
  | VStr s => Ok s
  end.

(** [new Array(...)]: a new object of the heap. *)
Definition new_Array (vs : list jsval) (h : heap) : loc * heap :=
  let a := fresh (dom h) in (a, <[a := vs]> h).

(** ** The handlers of the change events *)

(** [updateColorDemo(sHex)], lines 379-388. *)
Definition updateColorDemo (p : prefs) (sHex : jsstring) (d : page) : page :=
  let sHex := if eqb (isHexSharp p) (str "false") then str "#" ++ sHex
              else sHex in
  {| rgb_R := rgb_R d; rgb_G := rgb_G d; rgb_B := rgb_B d;
     cmyk_C := cmyk_C d; cmyk_M := cmyk_M d; cmyk_Y := cmyk_Y d;
     cmyk_K := cmyk_K d; hex := hex d;
     hex_sharp := hex_sharp d; cmyk_percent := cmyk_percent d;
     colorDemo := Some sHex; alerts := alerts d |}.

(** The four values of the formatted array, as [val] stores them. *)
Definition formatted_values (h : heap) (aCMYK : loc)
    : res (jsstring * jsstring * jsstring * jsstring) :=
  c ← element h aCMYK 0 ≫= to_string;
  m ← element h aCMYK 1 ≫= to_string;
  y ← element h aCMYK 2 ≫= to_string;
  k ← element h aCMYK 3 ≫= to_string;
  Ok (c, m, y, k).

(** [rgbChanged()], lines 213-246.  The arrays of a handler are its own,
    no reference to them is kept when it returns: they live in a heap that
    starts empty. *)
Definition rgbChanged (p : prefs) (d : page) : res page :=
  let iR := parseInt (rgb_R d) 10 in
  let iG := parseInt (rgb_G d) 10 in
  let iB := parseInt (rgb_B d) 10 in
  let iR := makeValidRgb iR in
  let iG := makeValidRgb iG in
  let iB := makeValidRgb iB in
  let '(a, h) := new_Array (VNum <$> rgb2cmyk iR iG iB) ∅ in
  '(aCMYK, h) ← formatCmykOutput p a h;
  let sHEX := rgb2hex p iR iG iB in
  '(c, m, y, k) ← formatted_values h aCMYK;
  r ← number_to_string iR;
  g ← number_to_string iG;
  b ← number_to_string iB;
  Ok (updateColorDemo p sHEX
        {| rgb_R := r; rgb_G := g; rgb_B := b;
           cmyk_C := c; cmyk_M := m; cmyk_Y := y; cmyk_K := k;
           hex := sHEX;
           hex_sharp := hex_sharp d; cmyk_percent := cmyk_percent d;
           colorDemo := colorDemo d; alerts := alerts d |}).

(** How [cmykChanged] reads an input, lines 255-266. *)
Definition read_cmyk (p : prefs) (v : jsstring) : float :=
  if eqb (isCMYKPercent p) (str "false")
  then parseFloat (replace v 44 46)
  else (parseInt v 10 / 100)%float.

(** [cmykChanged()], lines 253-300. *)
Definition cmykChanged (p : prefs) (d : page) : res page :=
  let fC := read_cmyk p (cmyk_C d) in
  let fM := read_cmyk p (cmyk_M d) in
  let fY := read_cmyk p (cmyk_Y d) in
  let fK := read_cmyk p (cmyk_K d) in
  let fC := makeValidCmyk fC in
  let fM := makeValidCmyk fM in
  let fY := makeValidCmyk fY in
  let fK := makeValidCmyk fK in
  let aRGB := cmyk2rgb fC fM fY fK in
  iR ← item aRGB 0;
  iG ← item aRGB 1;
  iB ← item aRGB 2;
  let sHEX := rgb2hex p iR iG iB in
  r ← number_to_string iR;
  g ← number_to_string iG;
  b ← number_to_string iB;
  let '(a, h) := new_Array [VNum fC; VNum fM; VNum fY; VNum fK] ∅ in
  '(aCMYK, h) ← formatCmykOutput p a h;
  '(c, m, y, k) ← formatted_values h aCMYK;
  Ok (updateColorDemo p sHEX
        {| rgb_R := r; rgb_G := g; rgb_B := b;
           cmyk_C := c; cmyk_M := m; cmyk_Y := y; cmyk_K := k;
           hex := sHEX;
           hex_sharp := hex_sharp d; cmyk_percent := cmyk_percent d;
           colorDemo := colorDemo d; alerts := alerts d |}).

(** The message of [hexChanged], line 316. *)
Definition hex_message : jsstring :=
  str "Der HEX-Wert kan mit # beginnen und muss 6, oder 3 Zeichen lang sein.".

(** [alert(message)]. *)
Definition alert (message : jsstring) (d : page) : page :=
  {| rgb_R := rgb_R d; rgb_G := rgb_G d; rgb_B := rgb_B d;
     cmyk_C := cmyk_C d; cmyk_M := cmyk_M d; cmyk_Y := cmyk_Y d;
     cmyk_K := cmyk_K d; hex := hex d;
     hex_sharp := hex_sharp d; cmyk_percent := cmyk_percent d;
     colorDemo := colorDemo d; alerts := alerts d ++ [message] |}.

(** [hexChanged()], lines 308-347.  A number that is not [HEX_NOT_VALID]
    has no method [substr]. *)
Definition hexChanged (p : prefs) (d : page) : res (returned * page) :=
  let sHEX := hex d in
  let sHEX := makeValidHex sHEX in
  if loose_eq sHEX HEX_NOT_VALID then Ok (ReturnsFalse, alert hex_message d)
  else
    match sHEX with
    | VNum _ => Err TypeError
    | VStr sHEX =>
        let aRGB := hex2rgb sHEX in
        iR ← item aRGB 0;
        iG ← item aRGB 1;
        iB ← item aRGB 2;
        let '(a, h) := new_Array (VNum <$> rgb2cmyk iR iG iB) ∅ in
        '(aCMYK, h) ← formatCmykOutput p a h;
        r ← number_to_string iR;
        g ← number_to_string iG;
        b ← number_to_string iB;
        '(c, m, y, k) ← formatted_values h aCMYK;
        let sHEX := if eqb (isHexSharp p) (str "true") then str "#" ++ sHEX
                    else sHEX in
        Ok (ReturnsUndefined,
            updateColorDemo p sHEX
              {| rgb_R := r; rgb_G := g; rgb_B := b;
                 cmyk_C := c; cmyk_M := m; cmyk_Y := y; cmyk_K := k;
                 hex := sHEX;
                 hex_sharp := hex_sharp d; cmyk_percent := cmyk_percent d;
                 colorDemo := colorDemo d; alerts := alerts d |})
    end.

(** ** The preferences and the local storage *)

(** The keys of lines 23-24. *)
Definition HEX_SHARP_KEY : jsstring := str "hex_sharp".
Definition CMYK_PERCENT_KEY : jsstring := str "cmyk_percent".

(** The state of the application: the two global variables, the local
    storage of the browser, and the page. *)
Record state := State {
  globals : prefs;
  localStorage : gmap jsstring jsstring;
  window : page
}.

(** The function given to [$(document).ready], lines 406-420: the stored
    preferences are loaded, and the switches of the option menu set.  (The
    set-up of jQTouch before it does not touch this state, and the
    handlers that it registers are those of [handle] below.) *)
Definition ready (s : state) : state :=
  let st := localStorage s in
  let sharp := match st !! HEX_SHARP_KEY with
               | Some v => v
               | None => isHexSharp (globals s)
               end in
  let percent := match st !! CMYK_PERCENT_KEY with
                 | Some v => v
                 | None => isCMYKPercent (globals s)
                 end in
  let d := window s in
  {| globals := {| isHexSharp := sharp; isCMYKPercent := percent |};
     localStorage := st;
     window :=
       {| rgb_R := rgb_R d; rgb_G := rgb_G d; rgb_B := rgb_B d;
          cmyk_C := cmyk_C d; cmyk_M := cmyk_M d; cmyk_Y := cmyk_Y d;
          cmyk_K := cmyk_K d; hex := hex d;
          hex_sharp :=
            if bool_decide (st !! HEX_SHARP_KEY = Some (str "true"))
            then true else hex_sharp d;
          cmyk_percent :=
            if bool_decide (st !! CMYK_PERCENT_KEY = Some (str "true"))
            then true else cmyk_percent d;
          colorDemo := colorDemo d; alerts := alerts d |} |}.

(** The handler of the switch [hex_sharp], lines 434-445. *)
Definition hex_sharp_changed (s : state) : state :=
  let v := if hex_sharp (window s) then str "true" else str "false" in
  {| globals := {| isHexSharp := v;
                   isCMYKPercent := isCMYKPercent (globals s) |};
     localStorage := <[HEX_SHARP_KEY := v]> (localStorage s);
     window := window s |}.

(** The handler of the switch [cmyk_percent], lines 448-459. *)
Definition cmyk_percent_changed (s : state) : state :=
  let v := if cmyk_percent (window s) then str "true" else str "false" in
  {| globals := {| isHexSharp := isHexSharp (globals s);
                   isCMYKPercent := v |};
     localStorage := <[CMYK_PERCENT_KEY := v]> (localStorage s);
     window := window s |}.

(** The change events that the script listens to, lines 424-459. *)
Inductive event :=
  | rgb_change | cmyk_change | hex_change
  | hex_sharp_change | cmyk_percent_change.

(** The handler of an event, run on the state. *)
Definition handle (e : event) (s : state) : res state :=
  match e with
  | rgb_change =>
      d ← rgbChanged (globals s) (window s);
      Ok {| globals := globals s; localStorage := localStorage s; window := d |}
  | cmyk_change =>
      d ← cmykChanged (globals s) (window s);
      Ok {| globals := globals s; localStorage := localStorage s; window := d |}
  | hex_change =>
      '(_, d) ← hexChanged (globals s) (window s);
      Ok {| globals := globals s; localStorage := localStorage s; window := d |}
  | hex_sharp_change => Ok (hex_sharp_changed s)
  | cmyk_percent_change => Ok (cmyk_percent_changed s)
  end.

(** The application loaded: the script starts with its global variables
    at their initial values, lines 19-20, and runs [ready] on the storage
    and the page that it finds. *)
Definition loaded (st : gmap jsstring jsstring) (d : page) : state :=
  ready {| globals := initial_prefs; localStorage := st; window := d |}.

(** The states that the application can be in: it is loaded; then the
    user edits the page and a change event runs its handler, any number of
    times. *)
Inductive reachable : state → Prop :=
  | reachable_ready st d : reachable (loaded st d)
  | reachable_event s e d s' :
      reachable s →
      handle e {| globals := globals s; localStorage := localStorage s;
                  window := d |} = Ok s' →
      reachable s'.

(** * Definitions used in the statements and proofs *)

(** ** Finite checks *)

(** [P] holds of the first [n] natural numbers. *)
Fixpoint all_below (n : nat) (P : Z → bool) : bool :=
  match n with
  | O => true
  | S k => P (Z.of_nat k) && all_below k P
  end.

(** An RGB channel: an integer from 0 to 255. *)
Definition channel (z : Z) : Prop := 0 <= z <= 255.

(** The first step of [rgb2cmyk] on a channel, [1 - x / 255]. *)
Definition cmy (x : Z) : float := (1 - of_Z x / 255)%float.

(** What the round trip makes of the channel [x] when the black component
    is [fK]: the component of [rgb2cmyk], then the channel of [cmyk2rgb]. *)
Definition cmyk_component (x fK : float) : float :=
  if (fK =? 1)%float then 0%float
  else ((1 - x / 255 - fK) / (1 - fK))%float.

Definition rgb_component (c fK : float) : float :=
  Math_round ((1 - (c * (1 - fK) + fK)) * 255)%float.

Definition feqb (a b : float) : bool := PrimFloat.Leibniz.eqb a b.

Definition min_check (m : Z) : Z → bool :=
  let fK := cmy m in
  λ x, let fC := cmy x in
       feqb (Math_min fC fK) (if x <=? m then fK else fC).

Definition min_one_check (x : Z) : bool :=
  feqb (Math_min 1 (cmy x)) (cmy x).

Definition round_trip_check (m : Z) : Z → bool :=
  let fK := cmy m in
  λ x, if x <=? m
       then let iR := of_Z x in
            feqb (rgb_component (cmyk_component iR fK) fK) iR
       else true.

(** The two characters that [rgb2hex] writes for one channel. *)
Definition hex_pair (iR : float) : jsstring :=
  charAt_num (str "0123456789ABCDEF") ((iR - rem iR 16) / 16)%float
  ++ charAt_num (str "0123456789ABCDEF") (rem iR 16).

(** The upper-case hexadecimal digit of a value from 0 to 15, and the two
    digits of a channel: the statement of [rgb2hex] in the words of the
    specification. *)
Definition upper_hex_digit (d : Z) : N :=
  if d <? 10 then (48 + Z.to_N d)%N else (65 + Z.to_N (d - 10))%N.

Definition two_hex_digits (z : Z) : jsstring :=
  [upper_hex_digit (z / 16); upper_hex_digit (z mod 16)].

Definition hex_pair_check (x : Z) : bool :=
  eqb (hex_pair (of_Z x)) (two_hex_digits x).

Definition parse_pair_check (x : Z) : bool :=
  feqb (parseInt (two_hex_digits x) 16) (of_Z x).

(** The components of [rgb2cmyk] are numbers from 0 to 1, and the black
    component is 1 for the channel 0 only. *)
Definition unit_range (x : float) : bool :=
  (0 <=? x)%float && (x <=? 1)%float.

Definition component_check (m : Z) : Z → bool :=
  let fK := cmy m in
  λ x, if x <=? m
       then unit_range (cmyk_component (of_Z x) fK)
       else true.

Definition black_check (m : Z) : bool :=
  let fK := cmy m in
  unit_range fK
  && Bool.eqb (fK =? 1)%float (m =? 0)
  && ((fK =? 1)%float || negb (1 - fK =? 0)%float).

Definition sharp_prefs : prefs :=
  {| isHexSharp := str "true"; isCMYKPercent := str "false" |}.

Definition percent_prefs : prefs :=
  {| isHexSharp := str "false"; isCMYKPercent := str "true" |}.

(** A heap with one array, the CMYK values of the examples. *)
Definition example_heap : heap :=
  {[ 7%nat := [VNum 0.5; VNum 0.25; VNum 1; VNum 0] ]}.

(** [P] holds of all the pairs of numbers below [n]. *)
Definition all_pairs_below (n : nat) (P : Z → Z → bool) : bool :=
  all_below n (λ m, all_below n (P m)).

(** ** The real value of a number *)

(** The powers of two, as real numbers. *)
Definition bpow (e : Z) : R := powerRZ 2 e.

(** The real number that a finite number stands for (0 for the others). *)
Definition sf_val (x : spec_float) : R :=
  match x with
  | S754_finite s m e =>
      ((if s then - IZR (Zpos m) else IZR (Zpos m)) * bpow e)%R
  | _ => 0%R
  end.

(** Zero or finite: neither NaN nor an infinity. *)
Definition sf_finite (x : spec_float) : bool :=
  match x with
  | S754_zero _ | S754_finite _ _ _ => true
  | _ => false
  end.

(** The number of sign [s], mantissa [m] and exponent [e]. *)
Definition sf_make (s : bool) (m e : Z) : spec_float :=
  match m with
  | Z0 => S754_zero s
  | Zpos p => S754_finite s p e
  | Zneg _ => S754_nan
  end.

(** [x] with the sign [s]. *)
Definition sgn (s : bool) (x : R) : R := if s then (- x)%R else x.

(** The same, of a primitive number. *)
Definition fval (x : float) : R := sf_val (Prim2SF x).

Definition ffinite (x : float) : bool := sf_finite (Prim2SF x).

(** The real number that the channel of [cmyk2rgb] approximates. *)
Definition mix (c k : R) : R := (255 * (1 - (c * (1 - k) + k)))%R.

(** [x] is an integer from 0 to 255 (it equals one, as numbers do), and
    this integer is the real number [v] rounded, up to the error of the
    floating-point operations. *)
Definition is_channel_near (x : float) (v : R) : Prop :=
  ∃ n : Z,
    0 <= n <= 255 ∧ (x =? of_Z n)%float = true
    ∧ (Rabs (IZR n - v) <= / 2 + / 1000000)%R.

(** The integers from 0 to 255 are numbers equal to themselves, written
    with their decimal digits. *)
Definition of_Z_check (n : Z) : bool :=
  let x := of_Z n in
  (x =? x)%float
  && match number_to_string x with
     | Ok s => eqb s (decimal n)
     | Err _ => false
     end.

(** ** The formatted strings *)

(** The code unit of a decimal digit. *)
Definition digit (d : Z) : N := (48 + Z.to_N d)%N.

(** [s] is the percent form of [v]: the integer nearest to [100 * v], from
    0 to 100, then [" %"]. *)
Definition percent_string (v : float) (s : jsstring) : Prop :=
  ∃ n : Z,
    0 <= n <= 100
    ∧ (Math_round (v * 100) =? of_Z n)%float = true
    ∧ (Rabs (IZR n - 100 * fval v) <= / 2 + / 1000000)%R
    /\ s = decimal n ++ str " %".

(** [s] is the fixed form of [v]: one digit, the point, and three digits,
    those of the integer nearest to [1000 * v]. *)
Definition fixed_string (v : float) (s : jsstring) : Prop :=
  ∃ d0 d1 d2 d3 : Z,
    (0 <= d0 <= 9 ∧ 0 <= d1 <= 9 ∧ 0 <= d2 <= 9 ∧ 0 <= d3 <= 9)
    ∧ s = [digit d0; 46%N; digit d1; digit d2; digit d3]
    ∧ (Rabs (IZR (1000 * d0 + 100 * d1 + 10 * d2 + d3) - 1000 * fval v)
        <= / 2)%R.

(** The form that the preference [isCMYKPercent] selects. *)
Definition formatted (p : prefs) (v : float) (s : jsstring) : Prop :=
  if eqb (isCMYKPercent p) (str "true")
  then percent_string v s else fixed_string v s.

(** The loop body that the preference [isCMYKPercent] selects. *)
Definition format_body (p : prefs) : jsval → res jsval :=
  if eqb (isCMYKPercent p) (str "true") then format_percent else format_fixed.

(** [fixed_digits n 3] is one digit, the point and three digits. *)
Definition fixed_check (n : Z) : bool :=
  let d0 := n / 1000 in
  let d1 := n / 100 mod 10 in
  let d2 := n / 10 mod 10 in
  let d3 := n mod 10 in
  eqb (fixed_digits n 3) [digit d0; 46%N; digit d1; digit d2; digit d3]
  && (1000 * d0 + 100 * d1 + 10 * d2 + d3 =? n)
  && forallb (fun d => (0 <=? d) && (d <=? 9)) [d0; d1; d2; d3].

(** ** The steps of [makeValidHex] *)

(** The first step of [makeValidHex]: the string without its [#], or cut
    to six units. *)
Definition cleaned (value : jsstring) : jsstring :=
  if eqb (charAt value 0) (str "#") then substr value 1 6
  else if (6 <? length value)%nat then substr value 0 6
  else value.

(** The second step: each unit of a string of three doubled. *)
Definition stretched (value : jsstring) : jsstring :=
  match value with
  | [a; b; c] => [a; a; b; b; c; c]
  | _ => value
  end.

(** The value of an upper-case hexadecimal digit. *)
Definition upper_hex_value (c : N) : Z :=
  if (c <=? 57)%N then Z.of_N c - 48 else Z.of_N c - 55.

(** A unit of the ASCII range. *)
Definition ascii_unit (c : N) : bool := (c <? 128)%N.

(** A hexadecimal digit, in either case. *)
Definition hex_unit (c : N) : bool :=
  ((48 <=? c) && (c <=? 57) || (65 <=? c) && (c <=? 70)
   || (97 <=? c) && (c <=? 102))%N.

(** The upper-case form of an ASCII unit. *)
Definition upper_ascii (c : N) : N :=
  if ((97 <=? c) && (c <=? 122))%N then (c - 32)%N else c.

(** What the proofs use of an ASCII unit, and of one of the class. *)
Definition ascii_check (z : Z) : bool :=
  let c := Z.to_N z in
  eqb (upper_unit c) [upper_ascii c]
  && Bool.eqb (in_class (upper_ascii c)) (hex_unit c)
  && (if in_class c then eqb (upper_unit c) [c] && negb (c =? 35)%N else true).

(** ** The handlers *)

(** The number [x] is the channel [n]: the number of the integer, or for 0
    a zero of either sign. *)
Definition channel_value (x : float) (n : Z) : Prop :=
  (n ≠ 0 ∧ x = of_Z n) ∨ (n = 0 ∧ ∃ s, Prim2SF x = S754_zero s).

(** The six hexadecimal digits of three channels. *)
Definition hex_digits (r g b : Z) : jsstring :=
  two_hex_digits r ++ two_hex_digits g ++ two_hex_digits b.

(** The HEX string as the input [hex] shows it: with [#] when
    [isHexSharp] is ["true"]. *)
Definition shown_hex (p : prefs) (h : jsstring) : jsstring :=
  if eqb (isHexSharp p) (str "true") then str "#" ++ h else h.

(** The colour that reaches [#colorDemo]: [#] comes with it when
    [isHexSharp] is ["true"] or ["false"]. *)
Definition demo_colour (p : prefs) (h : jsstring) : jsstring :=
  if eqb (isHexSharp p) (str "true") || eqb (isHexSharp p) (str "false")
  then str "#" ++ h else h.

(** The page that shows the channels [r], [g], [b] and the CMYK strings
    [c], [m], [y], [k]: the switches and the messages are those of [d]. *)
Definition shows (p : prefs) (d : page) (r g b : Z) (c m y k : jsstring)
    : page :=
  {| rgb_R := decimal r; rgb_G := decimal g; rgb_B := decimal b;
     cmyk_C := c; cmyk_M := m; cmyk_Y := y; cmyk_K := k;
     hex := shown_hex p (hex_digits r g b);
     hex_sharp := hex_sharp d; cmyk_percent := cmyk_percent d;
     colorDemo := Some (demo_colour p (hex_digits r g b));
     alerts := alerts d |}.

(** [s] is what [formatCmykOutput] makes of [v] under the preferences. *)
Definition format_of (p : prefs) (v : float) (s : jsstring) : Prop :=
  format_body p (VNum v) = Ok (VStr s) ∧ formatted p v s.

(** Neither negative nor a negative zero: NaN counts. *)
Definition sf_nonneg (x : spec_float) : bool :=
  match x with
  | S754_zero s | S754_infinity s | S754_finite s _ _ => negb s
  | S754_nan => true
  end.

(** What the proofs use of the numbers of the channels. *)
Definition valid_check (n : Z) : bool :=
  let x := of_Z n in
  feqb (makeValidRgb x) x
  && feqb (parseInt (decimal n) 10) x
  && (let y := makeValidRgb (- x) in feqb y zero || feqb y neg_zero)
  && ((n =? 0) || negb (feqb x zero || feqb x neg_zero)).

(** The preference that the storage holds under a key: ["false"], the
    initial value of the global variables, when it holds none. *)
Definition stored (st : gmap jsstring jsstring) (key : jsstring) : jsstring :=
  default (str "false") (st !! key).

(** The page with its two switches set. *)
Definition switched (hs cp : bool) (d : page) : page :=
  {| rgb_R := rgb_R d; rgb_G := rgb_G d; rgb_B := rgb_B d;
     cmyk_C := cmyk_C d; cmyk_M := cmyk_M d; cmyk_Y := cmyk_Y d;
     cmyk_K := cmyk_K d; hex := hex d;
     hex_sharp := hs; cmyk_percent := cp;
     colorDemo := colorDemo d; alerts := alerts d |}.

(** The component of a largest channel is 0. *)
Definition largest_check (m : Z) : bool :=
  feqb (cmyk_component (of_Z m) (cmy m)) 0.

(** A formatted value, read again by [cmykChanged] and formatted again,
    is the same string: for the three decimals of [toFixed], and for the
    percent form. *)
Definition fixed_reread_check (n : Z) : bool :=
  let c := fixed_digits n 3 in
  let v := makeValidCmyk (parseFloat (replace c 44 46)) in
  match toFixed v 3 with
  | Ok s => eqb s c
  | Err _ => false
  end.

Definition percent_reread_check (n : Z) : bool :=
  let c := decimal n ++ str " %" in
  let v := makeValidCmyk (parseInt c 10 / 100)%float in
  match number_to_string (Math_round (v * 100)%float) with
  | Ok s => eqb (s ++ str " %") c
  | Err _ => false
  end.

(** A value formatted under one preference and read under the other: a
    percent form read as a fraction, and three decimals read as a
    percentage. *)
Definition percent_as_fixed_check (n : Z) : bool :=
  (n =? 0)
  || feqb (makeValidCmyk (parseFloat (replace (decimal n ++ str " %") 44 46)))
          1.

Definition fixed_as_percent_check (n : Z) : bool :=
  feqb (makeValidCmyk (parseInt (fixed_digits n 3) 10 / 100)%float) 0.

(** ** Examples *)

(** A page for the examples: the user has typed into every input. *)
Definition example_page : page :=
  {| rgb_R := str "300"; rgb_G := str " 12.7"; rgb_B := str "-0";
     cmyk_C := str "0,5"; cmyk_M := str "0.25"; cmyk_Y := str "x";
     cmyk_K := str "1e-1";
     hex := str "#1a2b3c"; hex_sharp := false; cmyk_percent := false;
     colorDemo := None; alerts := [] |}.

(** The page that [rgbChanged] leaves of the page of the examples, with
    the initial preferences. *)
Definition example_shown : page :=
  shows initial_prefs example_page 255 12 0
    (str "0.000") (str "0.953") (str "1.000") (str "0.000").

(** The application loaded on the page of the examples with an empty
    storage, and then with the switch [hex_sharp] turned on. *)
Definition example_state : state := loaded ∅ example_page.

Definition example_state_sharp : state :=
  hex_sharp_changed
    {| globals := globals example_state;
       localStorage := localStorage example_state;
       window := switched true false example_page |}.

(** The page of the examples with a HEX input that is no HEX string. *)
Definition rejected_page : page :=
  {| rgb_R := str "300"; rgb_G := str " 12.7"; rgb_B := str "-0";
     cmyk_C := str "0,5"; cmyk_M := str "0.25"; cmyk_Y := str "x";
     cmyk_K := str "1e-1";
     hex := str "GGHHII"; hex_sharp := false; cmyk_percent := false;
     colorDemo := None; alerts := [] |}.

(** The page that [cmykChanged] leaves of the page of the examples, with
    the initial preferences. *)
Definition example_cmyk_shown : page :=
  shows initial_prefs example_page 115 172 230
    (str "0.500") (str "0.250") (str "0.000") (str "0.100").

(** * Properties *)

(** ** Finite checks *)

Lemma all_below_spec n P z :
  all_below n P = true → 0 <= z < Z.of_nat n → P z = true.
Proof.
  induction n as [|k IH]; simpl; intros H Hz; [lia|].
  apply andb_true_iff in H as [Hk Hrest].
  destruct (decide (z = Z.of_nat k)) as [->|Hne]; [done|].
  apply IH; [done|lia].
Qed.

Lemma feqb_eq a b : feqb a b = true → a = b.
Proof. apply FloatAxioms.Leibniz.eqb_spec. Qed.

Lemma all_pairs_below_spec n P m x :
  all_pairs_below n P = true →
  0 <= m < Z.of_nat n → 0 <= x < Z.of_nat n → P m x = true.
Proof.
  intros H Hm Hx.
  apply (all_below_spec n (P m)); [|done].
  by apply (all_below_spec n (λ m, all_below n (P m))).
Qed.

Lemma channel_below z : channel z → 0 <= z < Z.of_nat 256.
Proof. unfold channel. lia. Qed.

Lemma min_table_ok : all_pairs_below 256 min_check = true.
Proof. vm_cast_no_check (eq_refl true). Qed.

Lemma min_one_table_ok : all_below 256 min_one_check = true.
Proof. vm_cast_no_check (eq_refl true). Qed.

Lemma round_trip_table_ok : all_pairs_below 256 round_trip_check = true.
Proof. vm_cast_no_check (eq_refl true). Qed.

Lemma Math_min_cmy x m :
  channel x → channel m → Math_min (cmy x) (cmy m) = cmy (Z.max x m).
Proof.
  intros Hx Hm.
  assert (min_check m x = true) as H
    by (apply (all_pairs_below_spec 256 min_check);
        auto using min_table_ok, channel_below).
  unfold min_check in H. apply feqb_eq in H. rewrite H.
  destruct (Z.leb_spec x m); f_equal; lia.
Qed.

Lemma Math_min_one_cmy x : channel x → Math_min 1 (cmy x) = cmy x.
Proof.
  intros Hx. apply feqb_eq. change (min_one_check x = true).
  apply (all_below_spec 256 min_one_check);
    auto using min_one_table_ok, channel_below.
Qed.

Lemma rgb2cmyk_fK_cmy r g b :
  channel r → channel g → channel b →
  rgb2cmyk_fK (of_Z r) (of_Z g) (of_Z b) = cmy (Z.max r (Z.max g b)).
Proof.
  intros Hr Hg Hb. unfold rgb2cmyk_fK. fold (cmy r) (cmy g) (cmy b).
  assert (channel (Z.max g b)) by (unfold channel in *; lia).
  rewrite (Math_min_cmy g b), (Math_min_cmy r), Math_min_one_cmy; try done.
  unfold channel in *; lia.
Qed.

Lemma round_trip_channel x m :
  channel x → channel m → x <= m →
  rgb_component (cmyk_component (of_Z x) (cmy m)) (cmy m) = of_Z x.
Proof.
  intros Hx Hm Hle. apply feqb_eq.
  assert (round_trip_check m x = true) as H
    by (apply (all_pairs_below_spec 256 round_trip_check);
        auto using round_trip_table_ok, channel_below).
  unfold round_trip_check in H. cbv zeta in H.
  apply Z.leb_le in Hle. rewrite Hle in H. exact H.
Qed.

Lemma rgb_cmyk_rgb_components iR iG iB :
  let fK := rgb2cmyk_fK iR iG iB in
  rgb_cmyk_rgb iR iG iB =
    Some [rgb_component (cmyk_component iR fK) fK;
          rgb_component (cmyk_component iG fK) fK;
          rgb_component (cmyk_component iB fK) fK].
Proof.
  intros fK. unfold rgb_cmyk_rgb, rgb2cmyk, cmyk_component. fold fK.
  destruct (fK =? 1)%float; reflexivity.
Qed.

(** C1: for every RGB triplet with channels in [0,255], [rgb2cmyk] followed
    by [cmyk2rgb] gives back exactly the triplet. *)
Theorem rgb_cmyk_round_trip (r g b : Z) :
  channel r → channel g → channel b →
  rgb_cmyk_rgb (of_Z r) (of_Z g) (of_Z b) = Some [of_Z r; of_Z g; of_Z b].
Proof.
  intros Hr Hg Hb. rewrite rgb_cmyk_rgb_components. cbv zeta.
  rewrite rgb2cmyk_fK_cmy by done.
  assert (channel (Z.max r (Z.max g b))) by (unfold channel in *; lia).
  rewrite !round_trip_channel by (done || lia). done.
Qed.

Lemma rgb_cmyk_round_trip_witness :
  rgb_cmyk_rgb 12 34 56 = Some [12; 34; 56]%float.
Proof.
  exact (rgb_cmyk_round_trip 12 34 56
           ltac:(unfold channel; lia) ltac:(unfold channel; lia)
           ltac:(unfold channel; lia)).
Defined.

(** ** The order of the numbers *)

Section float_order.

Local Open Scope float_scope.

Lemma SFcompare_antisym (x y : spec_float) :
  SFcompare y x = CompOpp <$> SFcompare x y.
Proof.
  destruct x as [sx|sx| |sx mx ex], y as [sy|sy| |sy my ey];
    try destruct sx; try destruct sy; try reflexivity.
  all: simpl; rewrite (Z.compare_antisym ex ey);
    destruct (ex ?= ey)%Z; simpl; try reflexivity.
  all: by rewrite (Pos.compare_cont_antisym mx my Eq).
Qed.

Lemma SFcompare_refl (x : spec_float) :
  x ≠ S754_nan → SFcompare x x = Some Eq.
Proof.
  destruct x as [[]|[]| |[] m e]; try done; intros _; simpl.
  all: by rewrite Z.compare_refl, Pos.compare_cont_refl.
Qed.

Lemma SFcompare_None (x y : spec_float) :
  SFcompare x y = None ↔ x = S754_nan ∨ y = S754_nan.
Proof.
  destruct x as [[]|[]| |[] mx ex], y as [[]|[]| |[] my ey]; simpl;
    split; intros H; try done; try (by left); try (by right);
    by destruct H.
Qed.

Lemma is_nan_spec x : is_nan x = true ↔ Prim2SF x = S754_nan.
Proof.
  unfold is_nan. rewrite FloatAxioms.eqb_spec, negb_true_iff. unfold SFeqb.
  destruct (Prim2SF x) as [s|s| |s m e] eqn:E; [| |done|].
  all: by rewrite SFcompare_refl.
Qed.

Lemma is_nan_false x : is_nan x = false ↔ Prim2SF x ≠ S754_nan.
Proof. rewrite <- is_nan_spec. by destruct (is_nan x). Qed.

Lemma leb_not_ltb x y : (x <=? y) = true → (y <? x) = false.
Proof.
  rewrite FloatAxioms.leb_spec, FloatAxioms.ltb_spec. unfold SFleb, SFltb.
  rewrite (SFcompare_antisym (Prim2SF x) (Prim2SF y)).
  by destruct (SFcompare (Prim2SF x) (Prim2SF y)) as [[]|].
Qed.

Lemma not_ltb_leb x y :
  is_nan x = false → is_nan y = false → (x <? y) = false → (y <=? x) = true.
Proof.
  rewrite !is_nan_false, FloatAxioms.leb_spec, FloatAxioms.ltb_spec.
  unfold SFleb, SFltb. intros Hx Hy.
  rewrite (SFcompare_antisym (Prim2SF x) (Prim2SF y)).
  destruct (SFcompare (Prim2SF x) (Prim2SF y)) as [[]|] eqn:E; try done.
  apply SFcompare_None in E. by destruct E.
Qed.

Lemma leb_not_nan x y :
  (x <=? y) = true → is_nan x = false ∧ is_nan y = false.
Proof.
  rewrite !is_nan_false, FloatAxioms.leb_spec. unfold SFleb.
  destruct (SFcompare (Prim2SF x) (Prim2SF y)) eqn:E; [|done].
  intros _. split; intros H; rewrite H in E;
    by destruct (Prim2SF x), (Prim2SF y).
Qed.

Lemma ltb_not_nan x y :
  (x <? y) = true → is_nan x = false ∧ is_nan y = false.
Proof.
  rewrite !is_nan_false, FloatAxioms.ltb_spec. unfold SFltb.
  destruct (SFcompare (Prim2SF x) (Prim2SF y)) eqn:E; [|done].
  intros _. split; intros H; rewrite H in E;
    by destruct (Prim2SF x), (Prim2SF y).
Qed.

(** A number above a positive one is not below zero. *)
Lemma ltb_positive_not_negative c x :
  (0 <? c) = true → (c <? x) = true → (x <? 0) = false.
Proof.
  rewrite !FloatAxioms.ltb_spec.
  change (Prim2SF 0) with (S754_zero false). unfold SFltb.
  by destruct (Prim2SF c) as [[]|[]| |[] mc ec],
              (Prim2SF x) as [[]|[]| |[] m e].
Qed.

End float_order.

(** ** Rounding: the error of one operation *)

Lemma digits2_pos_bounds (m : positive) :
  2 ^ (Zpos (digits2_pos m) - 1) <= Zpos m < 2 ^ Zpos (digits2_pos m).
Proof.
  induction m as [m IH|m IH|]; simpl digits2_pos.
  - rewrite Pos2Z.inj_succ.
    replace (Z.succ (Zpos (digits2_pos m)) - 1) with (Z.succ (Zpos (digits2_pos m) - 1)) by lia.
    rewrite !Z.pow_succ_r by lia. lia.
  - rewrite Pos2Z.inj_succ.
    replace (Z.succ (Zpos (digits2_pos m)) - 1) with (Z.succ (Zpos (digits2_pos m) - 1)) by lia.
    rewrite !Z.pow_succ_r by lia. lia.
  - simpl. lia.
Qed.

Lemma shr_1_m mrs : 0 <= shr_m mrs → shr_m (shr_1 mrs) = shr_m mrs / 2.
Proof.
  destruct mrs as [m r s]. simpl. intros Hm.
  destruct m as [|[p|p|]|p]; cbn [shr_m]; try lia; try reflexivity.
  - apply (Z.div_unique _ _ _ 1); lia.
  - apply (Z.div_unique _ _ _ 0); lia.
Qed.

Lemma shr_iter_m (p : positive) : ∀ mrs,
  0 <= shr_m mrs → shr_m (SpecFloat.iter_pos shr_1 p mrs) = shr_m mrs / 2 ^ Zpos p.
Proof.
  assert (Hnn : forall mrs, 0 <= shr_m mrs -> 0 <= shr_m (shr_1 mrs)).
  { intros mrs H. rewrite shr_1_m by done. apply Z.div_pos; lia. }
  induction p as [p IH|p IH|]; intros mrs Hm.
  - change (SpecFloat.iter_pos shr_1 p~1 mrs)
      with (SpecFloat.iter_pos shr_1 p (SpecFloat.iter_pos shr_1 p (shr_1 mrs))).
    assert (0 <= shr_m (SpecFloat.iter_pos shr_1 p (shr_1 mrs))) as H1
      by (rewrite IH by auto; apply Z.div_pos; [auto|lia]).
    rewrite (IH _ H1), (IH _ (Hnn _ Hm)), shr_1_m by done.
    rewrite !Z.div_div by lia. f_equal. rewrite Pos2Z.inj_xI.
    rewrite <- Z.pow_add_r, <- Z.pow_succ_r by lia. f_equal. lia.
  - change (SpecFloat.iter_pos shr_1 p~0 mrs)
      with (SpecFloat.iter_pos shr_1 p (SpecFloat.iter_pos shr_1 p mrs)).
    assert (0 <= shr_m (SpecFloat.iter_pos shr_1 p mrs)) as H1
      by (rewrite IH by auto; apply Z.div_pos; [auto|lia]).
    rewrite (IH _ H1), (IH _ Hm).
    rewrite !Z.div_div by lia. f_equal. rewrite Pos2Z.inj_xO.
    rewrite <- Z.pow_add_r by lia. f_equal. lia.
  - change (SpecFloat.iter_pos shr_1 1 mrs) with (shr_1 mrs).
    by rewrite shr_1_m.
Qed.

Lemma shr_spec mrs e n :
  0 <= shr_m mrs →
  shr_m (fst (shr mrs e n)) = shr_m mrs / 2 ^ Z.max 0 n
  ∧ snd (shr mrs e n) = e + Z.max 0 n.
Proof.
  intros Hm. destruct n as [|p|p]; simpl.
  - rewrite Z.div_1_r. lia.
  - rewrite shr_iter_m by done. split; [done|lia].
  - rewrite Z.div_1_r. lia.
Qed.

Lemma shr_nonpos mrs e n : n <= 0 → shr mrs e n = (mrs, e).
Proof. by destruct n. Qed.

Lemma round_nearest_even_bounds q l :
  q <= round_nearest_even q l <= q + 1.
Proof.
  destruct l as [|[]]; simpl; try lia. destruct (Z.even q); lia.
Qed.

Lemma iter_xO (d m : positive) : Zpos (Pos.iter xO m d) = Zpos m * 2 ^ Zpos d.
Proof.
  induction d as [|d IH] using Pos.peano_ind.
  - simpl. lia.
  - rewrite Pos.iter_succ, Pos2Z.inj_xO, IH, Pos2Z.inj_succ, Z.pow_succ_r by lia. lia.
Qed.

Lemma shl_align_spec m e e' :
  let '(m', e'') := shl_align m e e' in
  e'' = Z.min e e' ∧ Zpos m' = Zpos m * 2 ^ (e - e'').
Proof.
  unfold shl_align. destruct (e' - e) as [|d|d] eqn:E.
  - replace (Z.min e e') with e by lia. rewrite Z.sub_diag. simpl. lia.
  - replace (Z.min e e') with e by lia. rewrite Z.sub_diag. simpl. lia.
  - replace (Z.min e e') with e' by lia. split; [done|].
    rewrite iter_xO. f_equal. f_equal. lia.
Qed.

Lemma bpow_pos e : (0 < bpow e)%R.
Proof. apply powerRZ_lt. lra. Qed.

Lemma bpow_add a b : bpow (a + b) = (bpow a * bpow b)%R.
Proof. apply powerRZ_add. lra. Qed.

Lemma bpow_IZR n : 0 <= n → bpow n = IZR (2 ^ n).
Proof.
  intros Hn. unfold bpow. destruct n as [|p|p]; [done| |lia].
  simpl. rewrite pow_IZR. by rewrite positive_nat_Z.
Qed.

Lemma bpow_ge_1 n : 0 <= n → (1 <= bpow n)%R.
Proof.
  intros Hn. rewrite bpow_IZR by done. apply IZR_le.
  pose proof (Z.pow_pos_nonneg 2 n). lia.
Qed.

Lemma bpow_le a b : a <= b → (bpow a <= bpow b)%R.
Proof.
  intros H. replace b with (a + (b - a)) by lia. rewrite bpow_add.
  pose proof (bpow_pos a). pose proof (bpow_ge_1 (b - a) ltac:(lia)). nra.
Qed.

Lemma bpow_lt a b : a < b → (bpow a < bpow b)%R.
Proof.
  intros H. replace b with (a + 1 + (b - a - 1)) by lia. rewrite !bpow_add.
  pose proof (bpow_pos a). pose proof (bpow_ge_1 (b - a - 1) ltac:(lia)).
  replace (bpow 1) with 2%R by (unfold bpow; simpl; lra). nra.
Qed.

Lemma bpow_le_inv a b : (bpow a <= bpow b)%R → a <= b.
Proof.
  intros H. destruct (Z_lt_le_dec b a) as [Hlt|]; [|done].
  apply bpow_lt in Hlt. lra.
Qed.

Lemma bpow_lt_inv a b : (bpow a < bpow b)%R → a < b.
Proof.
  intros H. destruct (Z_lt_le_dec a b) as [|Hle]; [done|].
  apply bpow_le in Hle. lra.
Qed.

Lemma fexp_eq k : fexp prec emax k = Z.max (k - 53) (-1074).
Proof. reflexivity. Qed.

Lemma Zdigits2_bound (m b : Z) :
  0 <= m → 0 <= b → m <= 2 ^ b → Zdigits2 m <= b + 1.
Proof.
  intros Hm Hb Hle. destruct m as [|p|p]; simpl; [lia| |lia].
  pose proof (digits2_pos_bounds p) as [Hlow _].
  assert (2 ^ (Zpos (digits2_pos p) - 1) <= 2 ^ b) as H by lia.
  apply Z.pow_le_mono_r_iff in H; lia.
Qed.

Lemma binary_round_aux_Z sx (M : positive) E :
  Zpos (digits2_pos M) + E <= 10 →
  ∃ m2 e2,
    binary_round_aux prec emax sx (Zpos M) E loc_Exact = sf_make sx m2 e2
    ∧ 0 <= m2 ∧ E <= e2
    ∧ ((m2 = Zpos M ∧ e2 = E)
        ∨ (e2 <= -42
            ∧ Z.abs (m2 * 2 ^ (e2 - E) - Zpos M) <= 2 ^ (e2 - E + 1))).
Proof.
  intros Hmag. unfold binary_round_aux, shr_fexp. cbn [Zdigits2].
  set (d := Zpos (digits2_pos M)) in *.
  set (f1 := fexp prec emax (d + E)).
  destruct (Z_le_gt_dec (f1 - E) 0) as [Hn|Hn].
  - rewrite shr_nonpos by done.
    cbn [shr_record_of_loc loc_of_shr_record round_nearest_even shr_m].
    cbn [Zdigits2]. fold d. fold f1. rewrite shr_nonpos by done.
    cbn [shr_m]. exists (Zpos M), E.
    assert ((E <=? emax - prec) = true) as ->
      by (apply Z.leb_le; unfold emax, prec; lia).
    cbn [sf_make]. repeat split; lia.
  - pose proof (shr_spec (shr_record_of_loc (Zpos M) loc_Exact) E (f1 - E)
                  ltac:(simpl; lia)) as [Hq He'].
    destruct (shr _ E (f1 - E)) as [mrs' e']. cbn [fst snd] in Hq, He'.
    cbn [shr_record_of_loc shr_m] in Hq.
    rewrite Z.max_r in Hq, He' by lia.
    set (n1 := f1 - E) in *.
    set (q := shr_m mrs') in *.
    set (m1 := round_nearest_even q (loc_of_shr_record mrs')).
    pose proof (round_nearest_even_bounds q (loc_of_shr_record mrs')) as Hm1.
    fold m1 in Hm1.
    assert (0 < 2 ^ n1) as HA by (apply Z.pow_pos_nonneg; lia).
    pose proof (digits2_pos_bounds M) as [_ HMd]. fold d in HMd.
    pose proof (Z.mul_div_le (Zpos M) (2 ^ n1) HA) as Hq1.
    pose proof (Z.mul_succ_div_gt (Zpos M) (2 ^ n1) HA) as Hq2.
    rewrite <- Hq in Hq1, Hq2.
    assert (0 <= q) as Hq0 by (rewrite Hq; apply Z.div_pos; lia).
    assert (e' = f1) as -> by lia.
    pose proof (shr_spec (shr_record_of_loc m1 loc_Exact) f1
                  (fexp prec emax (Zdigits2 m1 + f1) - f1)
                  ltac:(simpl; lia)) as [Hm2 He''].
    destruct (shr _ f1 _) as [mrs'' e'']. cbn [fst snd] in Hm2, He''.
    cbn [shr_record_of_loc shr_m] in Hm2.
    set (n2 := Z.max 0 (fexp prec emax (Zdigits2 m1 + f1) - f1)) in *.
    set (m2 := shr_m mrs'') in *.
    assert (0 < 2 ^ n2) as HB by (apply Z.pow_pos_nonneg; lia).
    pose proof (Z.mul_div_le m1 (2 ^ n2) HB) as Hr1.
    pose proof (Z.mul_succ_div_gt m1 (2 ^ n2) HB) as Hr2.
    rewrite <- Hm2 in Hr1, Hr2.
    assert (0 <= m2) as Hm20 by (rewrite Hm2; apply Z.div_pos; lia).
    assert (f1 <= -43) as Hf1 by (unfold f1; rewrite fexp_eq; lia).
    assert (Zdigits2 m1 + f1 <= 11) as Hd1.
    { destruct (Z_le_gt_dec n1 d) as [Hle|Hgt].
      - assert (m1 <= 2 ^ (d - n1)) as Hb.
        { assert (2 ^ d = 2 ^ (d - n1) * 2 ^ n1) as Hsplit
            by (rewrite <- Z.pow_add_r by lia; f_equal; lia).
          nia. }
        pose proof (Zdigits2_bound m1 (d - n1) ltac:(lia) ltac:(lia) Hb).
        unfold n1 in *. lia.
      - assert (q = 0) as Hq00.
        { assert (2 ^ d <= 2 ^ n1) by (apply Z.pow_le_mono_r; lia). nia. }
        pose proof (Zdigits2_bound m1 0 ltac:(lia) ltac:(lia) ltac:(simpl; lia)).
        lia. }
    assert (e'' <= -42) as He2
      by (rewrite He''; unfold n2; rewrite fexp_eq; lia).
    exists m2, e''.
    assert (match m2 with
            | 0 => S754_zero sx
            | Z.pos m => if e'' <=? emax - prec then S754_finite sx m e''
                         else S754_infinity sx
            | Z.neg _ => S754_nan
            end = sf_make sx m2 e'') as ->.
    { destruct m2; try done.
      assert ((e'' <=? emax - prec) = true) as ->
        by (apply Z.leb_le; unfold emax, prec; lia).
      done. }
    repeat split; try lia. right. split; [done|].
    replace (e'' - E) with (n1 + n2) by lia.
    replace (n1 + n2 + 1) with (1 + (n1 + n2)) by lia.
    rewrite !Z.pow_add_r by lia. change (2 ^ 1) with 2.
    apply Z.abs_le. nia.
Qed.

Lemma sf_val_make s m e :
  0 <= m → sf_val (sf_make s m e) = (sgn s (IZR m) * bpow e)%R.
Proof.
  intros Hm. destruct m as [|p|p]; [|done|lia].
  simpl. destruct s; simpl; lra.
Qed.

Lemma sf_finite_make s m e : 0 <= m → sf_finite (sf_make s m e) = true.
Proof. intros Hm. destruct m; try done; lia. Qed.

Lemma digits_magnitude (M : positive) E k :
  (IZR (Zpos M) * bpow E <= bpow k)%R → Zpos (digits2_pos M) + E <= k + 1.
Proof.
  intros H. pose proof (digits2_pos_bounds M) as [Hlow _].
  apply IZR_le in Hlow. rewrite <- bpow_IZR in Hlow by lia.
  pose proof (bpow_pos E).
  assert (bpow (Zpos (digits2_pos M) - 1 + E) <= bpow k)%R as Hle
    by (rewrite bpow_add; nra).
  apply bpow_le_inv in Hle. lia.
Qed.

Lemma binary_round_aux_R sx (M : positive) E :
  (IZR (Zpos M) * bpow E <= bpow 9)%R →
  sf_finite (binary_round_aux prec emax sx (Zpos M) E loc_Exact) = true
  ∧ (Rabs (sf_val (binary_round_aux prec emax sx (Zpos M) E loc_Exact)
            - sgn sx (IZR (Zpos M) * bpow E)) <= bpow (-41))%R.
Proof.
  intros Hmag. apply digits_magnitude in Hmag.
  destruct (binary_round_aux_Z sx M E Hmag)
    as (m2 & e2 & -> & Hm2 & HE & [[-> ->]|[He2 Herr]]).
  - split; [done|]. simpl. pose proof (bpow_pos (-41)).
    destruct sx; simpl; rewrite ?Ropp_mult_distr_l, Rminus_diag, Rabs_R0; lra.
  - split; [by apply sf_finite_make|]. rewrite sf_val_make by done.
    apply IZR_le in Herr. rewrite abs_IZR, minus_IZR, mult_IZR in Herr.
    rewrite <- !bpow_IZR in Herr by lia.
    assert (bpow e2 = bpow (e2 - E) * bpow E)%R as Hsplit
      by (rewrite <- bpow_add; f_equal; lia).
    assert (bpow (e2 - E + 1) * bpow E <= bpow (-41))%R as Hsmall.
    { rewrite <- bpow_add. apply bpow_le. lia. }
    pose proof (bpow_pos E) as HposE.
    set (x := (IZR m2 * bpow (e2 - E) - IZR (Zpos M))%R) in *.
    assert (Rabs (x * bpow E) <= bpow (-41))%R as Hfinal.
    { rewrite Rabs_mult, (Rabs_pos_eq (bpow E)) by lra.
      pose proof (Rabs_pos x). nra. }
    replace (sgn sx (IZR m2) * bpow e2 - sgn sx (IZR (Zpos M) * bpow E))%R
      with (sgn sx (x * bpow E)).
    + destruct sx; simpl; [by rewrite Rabs_Ropp|done].
    + unfold x. rewrite Hsplit. destruct sx; simpl; ring.
Qed.

Lemma binary_round_R s (m : positive) e :
  (IZR (Zpos m) * bpow e <= bpow 9)%R →
  sf_finite (binary_round prec emax s m e) = true
  ∧ (Rabs (sf_val (binary_round prec emax s m e)
            - sgn s (IZR (Zpos m) * bpow e)) <= bpow (-41))%R.
Proof.
  intros Hmag. unfold binary_round.
  pose proof (shl_align_spec m e (fexp prec emax (Zpos (digits2_pos m) + e)))
    as Hal.
  destruct (shl_align m e _) as [mz ez]. destruct Hal as [Hez Hmz].
  assert (IZR (Zpos mz) * bpow ez = IZR (Zpos m) * bpow e)%R as Hsame.
  { rewrite Hmz, mult_IZR, <- bpow_IZR by lia.
    rewrite Rmult_assoc, <- bpow_add. do 2 f_equal. lia. }
  rewrite <- Hsame in *. by apply binary_round_aux_R.
Qed.

Lemma binary_normalize_R (M : Z) e :
  (Rabs (IZR M * bpow e) <= bpow 9)%R →
  sf_finite (binary_normalize prec emax M e false) = true
  ∧ (Rabs (sf_val (binary_normalize prec emax M e false) - IZR M * bpow e)
      <= bpow (-41))%R.
Proof.
  intros Hmag. pose proof (bpow_pos e). pose proof (bpow_pos (-41)).
  destruct M as [|m|m]; simpl.
  - split; [done|]. rewrite Rmult_0_l, Rminus_diag, Rabs_R0. lra.
  - apply binary_round_R. rewrite Rabs_pos_eq in Hmag; [done|].
    pose proof (IZR_lt 0 (Zpos m) ltac:(lia)). nra.
  - replace (IZR (Z.neg m) * bpow e)%R
      with (sgn true (IZR (Zpos m) * bpow e)) in *
      by (simpl; change (Z.neg m) with (- Zpos m); rewrite opp_IZR; ring).
    apply binary_round_R. simpl in Hmag. rewrite Rabs_Ropp in Hmag.
    rewrite Rabs_pos_eq in Hmag; [done|].
    pose proof (IZR_lt 0 (Zpos m) ltac:(lia)). nra.
Qed.

Lemma sf_val_finite s m e :
  sf_val (S754_finite s m e) = (sgn s (IZR (Zpos m)) * bpow e)%R.
Proof. by destruct s. Qed.

Lemma cond_Zopp_IZR s z : IZR (cond_Zopp s z) = sgn s (IZR z).
Proof. destruct s; simpl; [apply opp_IZR|done]. Qed.

Lemma aligned_sum_R sx mx ex sy my ey :
  let ez := Z.min ex ey in
  ((sgn sx (IZR (Zpos (fst (shl_align mx ex ez))))
    + sgn sy (IZR (Zpos (fst (shl_align my ey ez))))) * bpow ez
   = sf_val (S754_finite sx mx ex) + sf_val (S754_finite sy my ey))%R
  ∧ ((sgn sx (IZR (Zpos (fst (shl_align mx ex ez))))
       - sgn sy (IZR (Zpos (fst (shl_align my ey ez))))) * bpow ez
      = sf_val (S754_finite sx mx ex) - sf_val (S754_finite sy my ey))%R.
Proof.
  intros ez. rewrite !sf_val_finite.
  pose proof (shl_align_spec mx ex ez) as Hx.
  pose proof (shl_align_spec my ey ez) as Hy.
  destruct (shl_align mx ex ez) as [mx' ex'], (shl_align my ey ez) as [my' ey'].
  destruct Hx as [Hex Hmx], Hy as [Hey Hmy]. cbn [fst].
  assert (ex' = ez) as -> by (unfold ez in *; lia).
  assert (ey' = ez) as -> by (unfold ez in *; lia).
  rewrite Hmx, Hmy, !mult_IZR, <- !bpow_IZR by (unfold ez; lia).
  assert (bpow ex = bpow (ex - ez) * bpow ez)%R as ->
    by (rewrite <- bpow_add; f_equal; lia).
  assert (bpow ey = bpow (ey - ez) * bpow ez)%R as ->
    by (rewrite <- bpow_add; f_equal; lia).
  destruct sx, sy; simpl; split; ring.
Qed.

Lemma SFadd_R x y :
  sf_finite x = true → sf_finite y = true →
  (Rabs (sf_val x + sf_val y) <= bpow 9)%R →
  sf_finite (SF64add x y) = true
  ∧ (Rabs (sf_val (SF64add x y) - (sf_val x + sf_val y)) <= bpow (-41))%R.
Proof.
  pose proof (bpow_pos (-41)) as Hpos.
  assert (Rabs 0 <= bpow (-41))%R as H0 by (rewrite Rabs_R0; lra).
  destruct x as [sx|sx| |sx mx ex], y as [sy|sy| |sy my ey]; try done;
    intros _ _ Hmag.
  - split; [by destruct sx, sy|].
    replace (sf_val _ - _)%R with 0%R; [done|]. destruct sx, sy; simpl; ring.
  - split; [done|]. unfold SF64add, SFadd.
    replace (_ - _)%R with 0%R; [done|]. simpl sf_val at 2. ring.
  - split; [done|]. unfold SF64add, SFadd.
    replace (_ - _)%R with 0%R; [done|]. simpl sf_val at 3. ring.
  - unfold SF64add, SFadd.
    destruct (aligned_sum_R sx mx ex sy my ey) as [Hsum _]. cbv zeta in Hsum.
    rewrite <- Hsum in *. rewrite <- !cond_Zopp_IZR, <- plus_IZR in *.
    by apply binary_normalize_R.
Qed.

Lemma SFsub_R x y :
  sf_finite x = true → sf_finite y = true →
  (Rabs (sf_val x - sf_val y) <= bpow 9)%R →
  sf_finite (SF64sub x y) = true
  ∧ (Rabs (sf_val (SF64sub x y) - (sf_val x - sf_val y)) <= bpow (-41))%R.
Proof.
  pose proof (bpow_pos (-41)) as Hpos.
  assert (Rabs 0 <= bpow (-41))%R as H0 by (rewrite Rabs_R0; lra).
  destruct x as [sx|sx| |sx mx ex], y as [sy|sy| |sy my ey]; try done;
    intros _ _ Hmag.
  - split; [by destruct sx, sy|].
    replace (sf_val _ - _)%R with 0%R; [done|]. destruct sx, sy; simpl; ring.
  - split; [done|]. unfold SF64sub, SFsub.
    replace (_ - _)%R with 0%R; [done|]. rewrite !sf_val_finite.
    destruct sy; simpl; ring.
  - split; [done|]. unfold SF64sub, SFsub.
    replace (_ - _)%R with 0%R; [done|]. simpl sf_val at 3. ring.
  - unfold SF64sub, SFsub.
    destruct (aligned_sum_R sx mx ex sy my ey) as [_ Hsub]. cbv zeta in Hsub.
    rewrite <- Hsub in *. rewrite <- !cond_Zopp_IZR, <- minus_IZR in *.
    by apply binary_normalize_R.
Qed.

Lemma SFmul_R x y :
  sf_finite x = true → sf_finite y = true →
  (Rabs (sf_val x * sf_val y) <= bpow 9)%R →
  sf_finite (SF64mul x y) = true
  ∧ (Rabs (sf_val (SF64mul x y) - sf_val x * sf_val y) <= bpow (-41))%R.
Proof.
  pose proof (bpow_pos (-41)) as Hpos.
  assert (Rabs 0 <= bpow (-41))%R as H0 by (rewrite Rabs_R0; lra).
  destruct x as [sx|sx| |sx mx ex], y as [sy|sy| |sy my ey]; try done;
    intros _ _ Hmag.
  1-3: split; [done|]; unfold SF64mul, SFmul;
    (replace (_ - _)%R with 0%R; [done|]); simpl; ring.
  unfold SF64mul, SFmul.
  assert (sf_val (S754_finite sx mx ex) * sf_val (S754_finite sy my ey)
          = sgn (xorb sx sy) (IZR (Zpos (mx * my)) * bpow (ex + ey)))%R as Hval.
  { rewrite !sf_val_finite, Pos2Z.inj_mul, mult_IZR, bpow_add.
    destruct sx, sy; simpl; ring. }
  rewrite Hval in *. apply binary_round_aux_R.
  destruct (xorb sx sy); simpl in Hmag; rewrite ?Rabs_Ropp in Hmag.
  all: rewrite Rabs_pos_eq in Hmag; [done|].
  all: pose proof (IZR_lt 0 (Zpos (mx * my)) ltac:(lia));
    pose proof (bpow_pos (ex + ey)); nra.
Qed.

Lemma valid_finite x s m e :
  Prim2SF x = S754_finite s m e →
  Z.max (Zpos (digits2_pos m) + e - 53) (-1074) = e.
Proof.
  intros E. pose proof (Prim2SF_valid x) as Hv. rewrite E in Hv.
  unfold SpecFloat.valid_binary, SpecFloat.bounded, canonical_mantissa in Hv.
  apply andb_true_iff in Hv as [Hc _]. apply Z.eqb_eq in Hc.
  by rewrite fexp_eq in Hc.
Qed.

Lemma sub_R x y :
  ffinite x = true → ffinite y = true →
  (Rabs (fval x - fval y) <= bpow 9)%R →
  ffinite (x - y) = true
  ∧ (Rabs (fval (x - y) - (fval x - fval y)) <= bpow (-41))%R.
Proof. unfold ffinite, fval. rewrite sub_spec. apply SFsub_R. Qed.

Lemma add_R x y :
  ffinite x = true → ffinite y = true →
  (Rabs (fval x + fval y) <= bpow 9)%R →
  ffinite (x + y) = true
  ∧ (Rabs (fval (x + y) - (fval x + fval y)) <= bpow (-41))%R.
Proof. unfold ffinite, fval. rewrite add_spec. apply SFadd_R. Qed.

Lemma mul_R x y :
  ffinite x = true → ffinite y = true →
  (Rabs (fval x * fval y) <= bpow 9)%R →
  ffinite (x * y) = true
  ∧ (Rabs (fval (x * y) - fval x * fval y) <= bpow (-41))%R.
Proof. unfold ffinite, fval. rewrite mul_spec. apply SFmul_R. Qed.

Lemma unit_range_Z x :
  unit_range x = true →
  (∃ s, Prim2SF x = S754_zero s)
  ∨ (∃ m p, Prim2SF x = S754_finite false m (Zneg p)
                  ∧ Zpos m <= 2 ^ Zpos p).
Proof.
  intros H. apply andb_true_iff in H as [H0 H1].
  rewrite FloatAxioms.leb_spec in H0, H1.
  change (Prim2SF 0) with (S754_zero false) in H0.
  change (Prim2SF 1) with (S754_finite false 4503599627370496 (-52)) in H1.
  destruct (Prim2SF x) as [s|[]| |[] m e] eqn:E; try done.
  - left. by exists s.
  - right. pose proof (valid_finite x _ _ _ E) as Hv.
    pose proof (digits2_pos_bounds m) as [_ Hup].
    unfold SFleb, SFcompare in H1.
    destruct (Z.compare_spec e (-52)) as [->|Hlt|Hgt]; [| |done].
    + exists m, 52%positive. split; [done|].
      rewrite Pos.compare_cont_spec in H1.
      change (2 ^ Zpos 52) with (Zpos 4503599627370496).
      destruct (Pos.compare_spec m 4503599627370496) as [->|Hlt|Hgt];
        [apply Z.le_refl|by apply Z.lt_le_incl|done].
    + destruct e as [|p|p]; try lia. exists m, p. split; [done|].
      assert (2 ^ Zpos (digits2_pos m) <= 2 ^ Zpos p)
        by (apply Z.pow_le_mono_r; lia).
      lia.
Qed.

Lemma bpow_neg_pos p : (bpow (Zneg p) * IZR (2 ^ Zpos p) = 1)%R.
Proof.
  rewrite <- bpow_IZR, <- bpow_add by lia.
  by replace (Z.neg p + Z.pos p) with 0 by lia.
Qed.

Lemma unit_range_R x :
  unit_range x = true → ffinite x = true ∧ (0 <= fval x <= 1)%R.
Proof.
  intros H. unfold ffinite, fval.
  destruct (unit_range_Z x H) as [[s ->]|(m & p & -> & Hm)];
    cbn [sf_val sf_finite].
  - split; [done|lra].
  - split; [done|]. apply IZR_le in Hm.
    pose proof (IZR_lt 0 (Zpos m) ltac:(lia)).
    pose proof (bpow_pos (Zneg p)). pose proof (bpow_neg_pos p). nra.
Qed.

(** ** The validators *)

(** [makeValidRgb] returns, for every number and without an error, a
    number from 0 to 255: 0 for NaN (not a number) and below 0, 255 above
    255, the number itself from 0 to 255. *)
Theorem makeValidRgb_clamps (v : float) :
  ((0 <=? makeValidRgb v)%float && (makeValidRgb v <=? 255)%float = true)
  ∧ (isNaN v = true ∨ (v <? 0)%float = true → makeValidRgb v = 0%float)
  ∧ ((255 <? v)%float = true → makeValidRgb v = 255%float)
  ∧ ((0 <=? v)%float = true ∧ (v <=? 255)%float = true → makeValidRgb v = v).
Proof.
  unfold makeValidRgb, isNaN. repeat split.
  - destruct (is_nan v) eqn:Hnan; [reflexivity|].
    destruct (v <? 0)%float eqn:Hneg; [reflexivity|].
    destruct (255 <? v)%float eqn:Hbig; [reflexivity|]. simpl.
    apply andb_true_iff. split; by apply not_ltb_leb.
  - intros [->| ->]; [reflexivity|]. by rewrite orb_true_r.
  - intros Hbig. destruct (ltb_not_nan _ _ Hbig) as [_ ->].
    by rewrite (ltb_positive_not_negative 255 v), Hbig.
  - intros [Hlow Hhigh]. destruct (leb_not_nan _ _ Hlow) as [_ ->].
    by rewrite (leb_not_ltb _ _ Hlow), (leb_not_ltb _ _ Hhigh).
Qed.

Lemma makeValidRgb_clamps_witness :
  makeValidRgb nan = 0%float
  ∧ makeValidRgb (-3) = 0%float
  ∧ makeValidRgb 300 = 255%float
  ∧ makeValidRgb 77 = 77%float.
Proof.
  pose proof (makeValidRgb_clamps nan) as (_ & Hnan & _).
  pose proof (makeValidRgb_clamps (-3)) as (_ & Hneg & _).
  pose proof (makeValidRgb_clamps 300) as (_ & _ & Hbig & _).
  pose proof (makeValidRgb_clamps 77) as (_ & _ & _ & Hin).
  exact (conj (Hnan (or_introl eq_refl))
           (conj (Hneg (or_intror eq_refl))
              (conj (Hbig eq_refl) (Hin (conj eq_refl eq_refl))))).
Defined.

(** [makeValidCmyk] does the same with the numbers from 0 to 1. *)
Theorem makeValidCmyk_clamps (v : float) :
  ((0 <=? makeValidCmyk v)%float && (makeValidCmyk v <=? 1)%float = true)
  ∧ (isNaN v = true ∨ (v <? 0)%float = true → makeValidCmyk v = 0%float)
  ∧ ((1 <? v)%float = true → makeValidCmyk v = 1%float)
  ∧ ((0 <=? v)%float = true ∧ (v <=? 1)%float = true → makeValidCmyk v = v).
Proof.
  unfold makeValidCmyk, isNaN. repeat split.
  - destruct (is_nan v) eqn:Hnan; [reflexivity|].
    destruct (v <? 0)%float eqn:Hneg; [reflexivity|].
    destruct (1 <? v)%float eqn:Hbig; [reflexivity|]. simpl.
    apply andb_true_iff. split; by apply not_ltb_leb.
  - intros [->| ->]; [reflexivity|]. by rewrite orb_true_r.
  - intros Hbig. destruct (ltb_not_nan _ _ Hbig) as [_ ->].
    by rewrite (ltb_positive_not_negative 1 v), Hbig.
  - intros [Hlow Hhigh]. destruct (leb_not_nan _ _ Hlow) as [_ ->].
    by rewrite (leb_not_ltb _ _ Hlow), (leb_not_ltb _ _ Hhigh).
Qed.

Lemma makeValidCmyk_clamps_witness :
  makeValidCmyk nan = 0%float
  ∧ makeValidCmyk (-3) = 0%float
  ∧ makeValidCmyk 2 = 1%float
  ∧ makeValidCmyk 0.25 = 0.25%float.
Proof.
  pose proof (makeValidCmyk_clamps nan) as (_ & Hnan & _).
  pose proof (makeValidCmyk_clamps (-3)) as (_ & Hneg & _).
  pose proof (makeValidCmyk_clamps 2) as (_ & _ & Hbig & _).
  pose proof (makeValidCmyk_clamps 0.25) as (_ & _ & _ & Hin).
  exact (conj (Hnan (or_introl eq_refl))
           (conj (Hneg (or_intror eq_refl))
              (conj (Hbig eq_refl) (Hin (conj eq_refl eq_refl))))).
Defined.




(** ** The black component and the division of [rgb2cmyk] *)

Lemma rgb2cmyk_components iR iG iB :
  let fK := rgb2cmyk_fK iR iG iB in
  rgb2cmyk iR iG iB =
    [cmyk_component iR fK; cmyk_component iG fK; cmyk_component iB fK; fK].
Proof.
  intros fK. unfold rgb2cmyk, cmyk_component. fold fK.
  destruct (fK =? 1)%float; reflexivity.
Qed.

Lemma component_table_ok : all_pairs_below 256 component_check = true.
Proof. vm_cast_no_check (eq_refl true). Qed.

Lemma black_table_ok : all_below 256 black_check = true.
Proof. vm_cast_no_check (eq_refl true). Qed.

Lemma cmyk_component_unit_range x m :
  channel x → channel m → x <= m →
  unit_range (cmyk_component (of_Z x) (cmy m)) = true.
Proof.
  intros Hx Hm Hle.
  assert (component_check m x = true) as H
    by (apply (all_pairs_below_spec 256 component_check);
        auto using component_table_ok, channel_below).
  unfold component_check in H. cbv zeta in H.
  apply Z.leb_le in Hle. rewrite Hle in H. exact H.
Qed.

Lemma cmy_black m :
  channel m →
  unit_range (cmy m) = true
  ∧ (cmy m =? 1)%float = (m =? 0)
  ∧ ((cmy m =? 1)%float = false → (1 - cmy m =? 0)%float = false).
Proof.
  intros Hm.
  assert (black_check m = true) as H
    by (apply (all_below_spec 256 black_check);
        auto using black_table_ok, channel_below).
  unfold black_check in H. cbv zeta in H.
  apply andb_true_iff in H as [H H3]. apply andb_true_iff in H as [H1 H2].
  apply Bool.eqb_prop in H2. repeat split; [done..|].
  intros Hk. rewrite Hk in H3. simpl in H3. by apply negb_true_iff.
Qed.

Lemma unit_range_not_nan x : unit_range x = true → is_nan x = false.
Proof.
  intros H. apply andb_true_iff in H as [H _].
  rewrite FloatAxioms.leb_spec in H.
  unfold is_nan. rewrite FloatAxioms.eqb_spec. apply negb_false_iff.
  change (Prim2SF 0) with (S754_zero false) in H.
  revert H. unfold SFleb, SFeqb.
  destruct (Prim2SF x) as [[]|[]| |[] m e]; simpl; try done.
  all: by rewrite Z.compare_refl, Pos.compare_cont_refl.
Qed.

(** C5: [rgb2cmyk(0,0,0)] is exactly [(0,0,0,1)]; and for channels in
    [0,255] the black component is 1 for pure black only, the divisor
    [1 - fK] of the other branch is never zero, and the four components are
    numbers from 0 to 1, so none is NaN or infinite. *)
Theorem rgb2cmyk_black_and_division :
  rgb2cmyk 0 0 0 = [0; 0; 0; 1]%float
  ∧ ∀ r g b : Z, channel r → channel g → channel b →
      let fK := rgb2cmyk_fK (of_Z r) (of_Z g) (of_Z b) in
      ((fK =? 1)%float = true ↔ r = 0 ∧ g = 0 ∧ b = 0)
      ∧ ((fK =? 1)%float = false → (1 - fK =? 0)%float = false)
      ∧ Forall (λ x, unit_range x = true ∧ is_nan x = false)
          (rgb2cmyk (of_Z r) (of_Z g) (of_Z b)).
Proof.
  split; [reflexivity|]. intros r g b Hr Hg Hb fK.
  rewrite rgb2cmyk_components. fold fK.
  unfold fK. rewrite rgb2cmyk_fK_cmy by done. clear fK.
  set (m := Z.max r (Z.max g b)).
  assert (channel m) as Hm by (unfold channel in *; lia).
  destruct (cmy_black m Hm) as (Hk & Hone & Hdiv).
  split; [|split; [done|]].
  - rewrite Hone, Z.eqb_eq. unfold channel in *. lia.
  - assert (∀ x, channel x → x <= m →
              unit_range (cmyk_component (of_Z x) (cmy m)) = true
              ∧ is_nan (cmyk_component (of_Z x) (cmy m)) = false) as Hc.
    { intros x Hx Hle. split; [|apply unit_range_not_nan];
        by apply cmyk_component_unit_range. }
    repeat constructor; try (apply Hc; [done|lia]); try done.
    by apply unit_range_not_nan.
Qed.

Lemma rgb2cmyk_black_and_division_witness :
  let fK := rgb2cmyk_fK 12 34 56 in
  ((fK =? 1)%float = false → (1 - fK =? 0)%float = false)
  ∧ Forall (λ x, unit_range x = true ∧ is_nan x = false) (rgb2cmyk 12 34 56).
Proof.
  exact (proj2 (proj2 rgb2cmyk_black_and_division 12 34 56
                  ltac:(unfold channel; lia) ltac:(unfold channel; lia)
                  ltac:(unfold channel; lia))).
Defined.

(** ** RGB and HEX *)

Lemma hex_pair_table_ok : all_below 256 hex_pair_check = true.
Proof. vm_cast_no_check (eq_refl true). Qed.

Lemma parse_pair_table_ok : all_below 256 parse_pair_check = true.
Proof. vm_cast_no_check (eq_refl true). Qed.

Lemma eqb_eq (a b : jsstring) : eqb a b = true ↔ a = b.
Proof. apply bool_decide_eq_true. Qed.

Lemma hex_pair_two_hex_digits x :
  channel x → hex_pair (of_Z x) = two_hex_digits x.
Proof.
  intros Hx. apply eqb_eq. change (hex_pair_check x = true).
  apply (all_below_spec 256 hex_pair_check);
    auto using hex_pair_table_ok, channel_below.
Qed.

Lemma parseInt_two_hex_digits x :
  channel x → parseInt (two_hex_digits x) 16 = of_Z x.
Proof.
  intros Hx. apply feqb_eq. change (parse_pair_check x = true).
  apply (all_below_spec 256 parse_pair_check);
    auto using parse_pair_table_ok, channel_below.
Qed.

Lemma rgb2hex_hex_pairs p iR iG iB :
  rgb2hex p iR iG iB =
    (if eqb (isHexSharp p) (str "true") then str "#" else [])
    ++ hex_pair iR ++ hex_pair iG ++ hex_pair iB.
Proof.
  unfold rgb2hex. fold (hex_pair iR) (hex_pair iG) (hex_pair iB).
  destruct (eqb _ _); simpl; by rewrite <- ?app_assoc.
Qed.

(** C8: for channels in [0,255], [rgb2hex] writes the two upper-case
    hexadecimal digits of each channel in the order R, G, B, with [#] in
    front exactly when the preference [isHexSharp] is ["true"];
    [rgb2hex(255,0,128)] is ["FF0080"], and ["#FF0080"] with the
    preference on. *)
Theorem rgb2hex_two_digits_per_channel :
  (∀ (p : prefs) (r g b : Z), channel r → channel g → channel b →
     rgb2hex p (of_Z r) (of_Z g) (of_Z b) =
       (if decide (isHexSharp p = str "true") then str "#" else [])
       ++ two_hex_digits r ++ two_hex_digits g ++ two_hex_digits b)
  ∧ rgb2hex initial_prefs 255 0 128 = str "FF0080"
  ∧ rgb2hex sharp_prefs 255 0 128 = str "#FF0080".
Proof.
  split; [|split; vm_compute; reflexivity].
  intros p r g b Hr Hg Hb.
  rewrite rgb2hex_hex_pairs, !hex_pair_two_hex_digits by done.
  unfold eqb, bool_decide. by destruct (decide_rel _ _ _).
Qed.

Lemma rgb2hex_two_digits_per_channel_witness :
  rgb2hex sharp_prefs 18 52 86 = str "#123456".
Proof.
  exact (proj1 rgb2hex_two_digits_per_channel sharp_prefs 18 52 86
           ltac:(unfold channel; lia) ltac:(unfold channel; lia)
           ltac:(unfold channel; lia)).
Defined.

(** C2, as stated, fails: with the preference [isHexSharp] on, [rgb2hex]
    writes [#] first, and [hex2rgb] reads its three pairs from there. *)
Lemma hex_round_trip_fails_with_prefix :
  hex2rgb (rgb2hex sharp_prefs 255 0 128) = [nan; 240; 8]%float
  ∧ hex2rgb (rgb2hex sharp_prefs 255 0 128) ≠ [255; 0; 128]%float.
Proof.
  assert (hex2rgb (rgb2hex sharp_prefs 255 0 128) = [nan; 240; 8]%float) as E
    by (vm_compute; reflexivity).
  split; [exact E|]. rewrite E. intros H.
  apply (f_equal (λ l, match l with
                       | [_; x; _] => feqb x 0
                       | _ => true
                       end)) in H.
  vm_compute in H. discriminate.
Qed.

(** C2, amended: for channels in [0,255] and the preference [isHexSharp]
    off (any value but ["true"]), [hex2rgb] of [rgb2hex] is the triplet. *)
Theorem hex_round_trip_without_prefix (p : prefs) (r g b : Z) :
  isHexSharp p ≠ str "true" →
  channel r → channel g → channel b →
  hex2rgb (rgb2hex p (of_Z r) (of_Z g) (of_Z b)) = [of_Z r; of_Z g; of_Z b].
Proof.
  intros Hp Hr Hg Hb.
  rewrite rgb2hex_hex_pairs, !hex_pair_two_hex_digits by done.
  destruct (eqb (isHexSharp p) (str "true")) eqn:E;
    [by apply eqb_eq in E|].
  rewrite <- (parseInt_two_hex_digits r), <- (parseInt_two_hex_digits g),
    <- (parseInt_two_hex_digits b) by done.
  reflexivity.
Qed.

Lemma hex_round_trip_without_prefix_witness :
  hex2rgb (rgb2hex initial_prefs 255 0 128) = [255; 0; 128]%float.
Proof.
  exact (hex_round_trip_without_prefix initial_prefs 255 0 128
           ltac:(vm_compute; discriminate)
           ltac:(unfold channel; lia) ltac:(unfold channel; lia)
           ltac:(unfold channel; lia)).
Defined.

(** ** Rounding to an integer *)

Lemma valid_large_mantissa x s m e :
  Prim2SF x = S754_finite s m e → 0 <= e → 2 ^ 52 <= Zpos m.
Proof.
  intros E He. pose proof (valid_finite x s m e E) as Hv.
  pose proof (digits2_pos_bounds m) as [Hlow _].
  assert (Zpos (digits2_pos m) = 53) as Hd by lia.
  rewrite Hd in Hlow. exact Hlow.
Qed.

Lemma Math_round_range u N :
  0 <= N <= 1000000 →
  ffinite u = true → (- / 4 <= fval u <= IZR N + / 4)%R →
  ∃ n, 0 <= n <= N
    ∧ (fval u - / 2 <= IZR n <= fval u + / 2)%R
    ∧ ((n ≠ 0 ∧ Math_round u = of_Z n)
        ∨ (n = 0 ∧ ∃ s, Prim2SF (Math_round u) = S754_zero s)).
Proof.
  intros HN Hfin Hval. unfold Math_round, ffinite, fval in *.
  destruct (Prim2SF u) as [s|s| |s m e] eqn:E; try done.
  { exists 0. split; [lia|]. split; [simpl; lra|].
    right. split; [done|]. by exists s. }
  assert (IZR N <= 1000000)%R as HNR by (apply IZR_le; lia).
  destruct (Z.leb_spec 0 e) as [He|He].
  - exfalso. pose proof (valid_large_mantissa u s m e E He) as Hm.
    apply IZR_le in Hm. change (IZR (2 ^ 52)) with 4503599627370496%R in Hm.
    pose proof (bpow_ge_1 e He). rewrite sf_val_finite in Hval.
    destruct s; simpl in Hval; nra.
  - destruct e as [|p|p]; try lia. clear He.
    rewrite sf_val_finite in Hval.
    set (sm := if s then Z.neg m else Z.pos m) in *.
    assert (sgn s (IZR (Zpos m)) = IZR sm) as Hsm
      by (unfold sm; destruct s; simpl; [by rewrite <- opp_IZR|done]).
    rewrite Hsm in Hval.
    unfold round_half_up.
    change (Z.pow_pos 2 p) with (2 ^ Zpos p).
    change (Z.pow_pos 2 (Pos.succ p)) with (2 ^ Zpos (Pos.succ p)).
    rewrite Pos2Z.inj_succ, Z.pow_succ_r by lia.
    set (P := 2 ^ Zpos p) in *.
    assert (0 < P) as HP by (apply Z.pow_pos_nonneg; lia).
    pose proof (bpow_neg_pos p) as Hb. fold P in Hb.
    pose proof (bpow_pos (Zneg p)) as Hbp.
    pose proof (IZR_lt 0 P HP) as HPR.
    assert (0 <= 4 * sm + P) as Hlow.
    { apply le_IZR. rewrite plus_IZR, mult_IZR. nra. }
    assert (4 * sm <= (4 * N + 1) * P) as Hup.
    { apply le_IZR. rewrite !mult_IZR, plus_IZR, mult_IZR. nra. }
    set (n := (2 * sm + P) / (2 * P)).
    assert (0 <= n) as Hn0 by (apply Z.div_pos; lia).
    assert (n < N + 1) as HnN by (apply Z.div_lt_upper_bound; nia).
    exists n. split; [lia|]. split.
    { pose proof (Z.mul_div_le (2 * sm + P) (2 * P) ltac:(lia)) as H1.
      pose proof (Z.mul_succ_div_gt (2 * sm + P) (2 * P) ltac:(lia)) as H2.
      fold n in H1, H2. apply IZR_le in H1. apply IZR_lt in H2.
      rewrite !mult_IZR, ?plus_IZR, ?mult_IZR in H1, H2.
      unfold Z.succ in H2. rewrite plus_IZR in H2.
      assert (IZR sm = IZR sm * bpow (Z.neg p) * IZR P)%R as Hv
        by (rewrite Rmult_assoc, Hb; ring).
      rewrite sf_val_finite, Hsm. split.
      - apply Rlt_le, (Rmult_lt_reg_r (IZR P)); [done|]. nra.
      - apply (Rmult_le_reg_r (IZR P)); [done|]. nra. }
    destruct (Z.eqb_spec n 0) as [Hz|Hnz].
    + right. split; [done|]. exists s. by destruct s.
    + left. done.
Qed.

Lemma Rabs_le_inv x a : (Rabs x <= a)%R → (- a <= x <= a)%R.
Proof. unfold Rabs. destruct (Rcase_abs x); lra. Qed.

Lemma bpow_9 : bpow 9 = 512%R.
Proof. by rewrite bpow_IZR. Qed.

Lemma bpow_m41 : (0 < bpow (-41) <= / 2000000000000)%R.
Proof.
  split; [apply bpow_pos|]. pose proof (bpow_neg_pos 41) as H.
  change (IZR (2 ^ 41)) with 2199023255552%R in H. lra.
Qed.

Lemma fval_1 : ffinite 1 = true ∧ fval 1 = 1%R.
Proof.
  split; [done|]. unfold fval.
  change (Prim2SF 1) with (S754_finite false 4503599627370496 (-52)).
  cbn [sf_val]. pose proof (bpow_neg_pos 52) as H.
  change (IZR (2 ^ 52)) with 4503599627370496%R in H. lra.
Qed.

Lemma fval_255 : ffinite 255 = true ∧ fval 255 = 255%R.
Proof.
  split; [done|]. unfold fval.
  change (Prim2SF 255) with (S754_finite false 8972014882652160 (-45)).
  cbn [sf_val]. pose proof (bpow_neg_pos 45) as H.
  change (IZR (2 ^ 45)) with 35184372088832%R in H. lra.
Qed.

Lemma fval_100 : ffinite 100 = true ∧ fval 100 = 100%R.
Proof.
  split; [done|]. unfold fval.
  change (Prim2SF 100) with (S754_finite false 7036874417766400 (-46)).
  cbn [sf_val]. pose proof (bpow_neg_pos 46) as H.
  change (IZR (2 ^ 46)) with 70368744177664%R in H. lra.
Qed.

(** ** CMYK to RGB *)

Lemma unit_product_bound (x y e : R) :
  (0 <= x <= 1 → - e <= y <= e → - e <= x * y <= e)%R.
Proof. intros. nra. Qed.

Lemma rgb_component_R c k :
  unit_range c = true → unit_range k = true →
  let u := ((1 - (c * (1 - k) + k)) * 255)%float in
  ffinite u = true
  ∧ (Rabs (fval u - mix (fval c) (fval k)) <= / 1000000)%R.
Proof.
  intros Hc Hk u. unfold u, mix.
  destruct (unit_range_R c Hc) as [Fc Vc], (unit_range_R k Hk) as [Fk Vk].
  destruct fval_1 as [F1 V1], fval_255 as [F255 V255].
  pose proof bpow_m41 as Heps. pose proof bpow_9 as H9.
  destruct (sub_R 1 k F1 Fk) as [Fa Va].
  { apply Rabs_le. lra. }
  apply Rabs_le_inv in Va. rewrite V1 in Va.
  pose proof (unit_product_bound (fval c) _ _ Vc Va) as Hcd.
  pose proof (unit_product_bound (fval c) (1 - fval k) 1 Vc
                ltac:(lra)) as Hck.
  destruct (mul_R c (1 - k) Fc Fa) as [Fp Vp].
  { apply Rabs_le. lra. }
  apply Rabs_le_inv in Vp.
  destruct (add_R (c * (1 - k)) k Fp Fk) as [Fs Vs].
  { apply Rabs_le. lra. }
  apply Rabs_le_inv in Vs.
  destruct (sub_R 1 (c * (1 - k) + k) F1 Fs) as [Ft Vt].
  { apply Rabs_le. lra. }
  apply Rabs_le_inv in Vt. rewrite V1 in Vt.
  destruct (mul_R (1 - (c * (1 - k) + k)) 255 Ft F255) as [Fu Vu].
  { apply Rabs_le. rewrite V255. lra. }
  apply Rabs_le_inv in Vu. rewrite V255 in Vu.
  split; [done|]. apply Rabs_le.
  assert (0 <= fval c * (1 - fval k) + fval k <= 1)%R by nra.
  lra.
Qed.

Lemma of_Z_table_ok : all_below 256 of_Z_check = true.
Proof. vm_cast_no_check (eq_refl true). Qed.

Lemma of_Z_small n :
  0 <= n <= 255 →
  (of_Z n =? of_Z n)%float = true
  ∧ number_to_string (of_Z n) = Ok (decimal n).
Proof.
  intros Hn.
  assert (of_Z_check n = true) as H
    by (apply (all_below_spec 256 of_Z_check);
        [apply of_Z_table_ok|lia]).
  unfold of_Z_check in H. cbv zeta in H.
  apply andb_true_iff in H as [H1 H2]. split; [done|].
  destruct (number_to_string (of_Z n)) as [s|]; [|done].
  apply eqb_eq in H2. by subst.
Qed.

Lemma rounded_eqb x n :
  0 <= n <= 255 →
  (n ≠ 0 ∧ x = of_Z n) ∨ (n = 0 ∧ ∃ s, Prim2SF x = S754_zero s) →
  (x =? of_Z n)%float = true.
Proof.
  intros Hn [[_ ->]|[-> [s Hs]]].
  - by apply of_Z_small.
  - rewrite FloatAxioms.eqb_spec, Hs. by destruct s.
Qed.

Lemma rounded_to_string x n :
  0 <= n <= 255 →
  (n ≠ 0 ∧ x = of_Z n) ∨ (n = 0 ∧ ∃ s, Prim2SF x = S754_zero s) →
  number_to_string x = Ok (decimal n).
Proof.
  intros Hn [[_ ->]|[-> [s Hs]]].
  - by apply of_Z_small.
  - unfold number_to_string. by rewrite Hs.
Qed.

Lemma mix_range c k :
  (0 <= c <= 1 → 0 <= k <= 1 → 0 <= mix c k <= 255)%R.
Proof. unfold mix. intros. nra. Qed.

Lemma rgb_component_channel c k :
  unit_range c = true → unit_range k = true →
  is_channel_near (rgb_component c k) (mix (fval c) (fval k)).
Proof.
  intros Hc Hk. unfold rgb_component.
  destruct (rgb_component_R c k Hc Hk) as [Fu Vu]. apply Rabs_le_inv in Vu.
  pose proof (mix_range _ _ (proj2 (unit_range_R c Hc))
                (proj2 (unit_range_R k Hk))) as Hmix.
  destruct (Math_round_range _ 255 ltac:(lia) Fu ltac:(lra))
    as (n & Hn & Hnear & Hres).
  exists n. repeat split; [lia|lia|by apply rounded_eqb|].
  apply Rabs_le. lra.
Qed.

(** C6: for components from 0 to 1, [cmyk2rgb] computes each channel as
    [Math.round((1 - (c * (1 - fK) + fK)) * 255)], and each channel is an
    integer from 0 to 255: the real number [255 * (1 - (c * (1 - k) + k))]
    rounded, up to the error of the five floating-point operations. *)
Theorem cmyk2rgb_channels (fC fM fY fK : float) :
  unit_range fC = true → unit_range fM = true →
  unit_range fY = true → unit_range fK = true →
  cmyk2rgb fC fM fY fK =
    [Math_round ((1 - (fC * (1 - fK) + fK)) * 255);
     Math_round ((1 - (fM * (1 - fK) + fK)) * 255);
     Math_round ((1 - (fY * (1 - fK) + fK)) * 255)]%float
  ∧ Forall2 is_channel_near (cmyk2rgb fC fM fY fK)
       [mix (fval fC) (fval fK); mix (fval fM) (fval fK);
        mix (fval fY) (fval fK)].
Proof.
  intros HC HM HY HK. split; [reflexivity|].
  change (cmyk2rgb fC fM fY fK)
    with [rgb_component fC fK; rgb_component fM fK; rgb_component fY fK].
  repeat constructor; by apply rgb_component_channel.
Qed.

Lemma cmyk2rgb_channels_witness :
  Forall2 is_channel_near (cmyk2rgb 0.5 0.25 1 0)
    [mix (fval 0.5) (fval 0); mix (fval 0.25) (fval 0); mix (fval 1) (fval 0)].
Proof.
  exact (proj2 (cmyk2rgb_channels 0.5 0.25 1 0 eq_refl eq_refl eq_refl eq_refl)).
Defined.

(** ** HEX validation *)

Lemma ascii_table_ok : all_below 128 ascii_check = true.
Proof. vm_cast_no_check (eq_refl true). Qed.

Lemma ascii_unit_facts c :
  ascii_unit c = true →
  upper_unit c = [upper_ascii c]
  ∧ in_class (upper_ascii c) = hex_unit c.
Proof.
  intros Hc. apply N.ltb_lt in Hc.
  assert (ascii_check (Z.of_N c) = true) as H
    by (apply (all_below_spec 128 ascii_check); [apply ascii_table_ok|lia]).
  unfold ascii_check in H. cbv zeta in H. rewrite N2Z.id in H.
  apply andb_true_iff in H as [H _]. apply andb_true_iff in H as [H1 H2].
  apply eqb_eq in H1. apply Bool.eqb_prop in H2. done.
Qed.

Lemma toUpperCase_ascii s :
  forallb ascii_unit s = true → toUpperCase s = upper_ascii <$> s.
Proof.
  induction s as [|c s IH]; [done|]. cbn [forallb]. intros H.
  apply andb_true_iff in H as [Hc Hs]. unfold toUpperCase in *.
  cbn [flat_map]. rewrite IH by done.
  by destruct (ascii_unit_facts c Hc) as [-> _].
Qed.

Lemma regExp_test_six (a b c d e f : N) :
  regExp_test [a; b; c; d; e; f] = forallb in_class [a; b; c; d; e; f].
Proof.
  cbn [regExp_test matches_here forallb]. by rewrite !orb_false_r, andb_true_r, !andb_assoc.
Qed.

Lemma makeValidHex_cleaned value :
  makeValidHex value =
    let c := cleaned value in
    if negb (length c =? 3)%nat && negb (length c =? 6)%nat then HEX_NOT_VALID
    else if negb (regExp_test (toUpperCase (stretched c))) then HEX_NOT_VALID
    else VStr (toUpperCase (stretched c)).
Proof.
  unfold makeValidHex. fold (cleaned value). cbv zeta.
  destruct (cleaned value) as [|a [|b [|c [|d l]]]]; try done.
Qed.

Lemma forallb_take {A} (P : A → bool) n l :
  forallb P l = true → forallb P (take n l) = true.
Proof.
  revert n. induction l as [|x l IH]; intros [|n]; try done.
  cbn [forallb take]. rewrite !andb_true_iff. intros [? ?]. auto.
Qed.

Lemma forallb_drop {A} (P : A → bool) n l :
  forallb P l = true → forallb P (drop n l) = true.
Proof.
  revert n. induction l as [|x l IH]; intros [|n]; try done.
  cbn [forallb drop]. rewrite !andb_true_iff. intros [? ?]. auto.
Qed.

Lemma cleaned_ascii value :
  forallb ascii_unit value = true → forallb ascii_unit (cleaned value) = true.
Proof.
  intros H. unfold cleaned, substr.
  destruct (eqb _ _); [by apply forallb_take, forallb_drop|].
  destruct (_ <? _)%nat; [by apply forallb_take, forallb_drop|done].
Qed.

Lemma in_class_ascii c : in_class c = true → ascii_unit c = true.
Proof.
  unfold in_class, ascii_unit. rewrite orb_true_iff, andb_true_iff.
  rewrite bool_decide_eq_true, N.ltb_lt, !N.leb_le.
  change (str "ABCEDF") with [65; 66; 67; 69; 68; 70]%N.
  intros [?|H]; [lia|]. set_unfold. lia.
Qed.

Lemma in_class_facts c :
  in_class c = true → upper_unit c = [c] ∧ c ≠ 35%N.
Proof.
  intros Hc. pose proof (in_class_ascii c Hc) as Ha. apply N.ltb_lt in Ha.
  assert (ascii_check (Z.of_N c) = true) as H
    by (apply (all_below_spec 128 ascii_check); [apply ascii_table_ok|lia]).
  unfold ascii_check in H. cbv zeta in H. rewrite N2Z.id, Hc in H.
  apply andb_true_iff in H as [_ H]. apply andb_true_iff in H as [H1 H2].
  apply eqb_eq in H1. apply negb_true_iff, N.eqb_neq in H2. done.
Qed.

(** What [makeValidHex] does on ASCII input. *)
Lemma makeValidHex_ascii_cases (value : jsstring) :
  forallb ascii_unit value = true →
  (makeValidHex value = HEX_NOT_VALID
   ↔ (length (cleaned value) ≠ 3%nat ∧ length (cleaned value) ≠ 6%nat)
       ∨ forallb hex_unit (cleaned value) = false)
  ∧ (makeValidHex value ≠ HEX_NOT_VALID →
      makeValidHex value = VStr (upper_ascii <$> stretched (cleaned value))
      ∧ length (upper_ascii <$> stretched (cleaned value)) = 6%nat).
Proof.
  intros Hascii. apply cleaned_ascii in Hascii.
  rewrite makeValidHex_cleaned. cbv zeta.
  destruct (cleaned value) as [|a [|b [|c [|d [|e [|f [|g l]]]]]]];
    try (cbn; split; [split; [intros _; left; lia|done]|done]).
  - cbn [forallb] in Hascii. rewrite !andb_true_iff in Hascii.
    destruct Hascii as (Ha & Hb & Hc & _).
    cbn [length Nat.eqb negb andb stretched].
    rewrite toUpperCase_ascii
      by (cbn [forallb]; by rewrite Ha, Hb, Hc).
    cbn [fmap list_fmap]. rewrite regExp_test_six. cbn [forallb].
    destruct (ascii_unit_facts a Ha) as [_ ->].
    destruct (ascii_unit_facts b Hb) as [_ ->].
    destruct (ascii_unit_facts c Hc) as [_ ->].
    destruct (hex_unit a), (hex_unit b), (hex_unit c); cbn;
      (split; [split; [try done; by right|intros [[? ?]|?]; done]|done]).
  - cbn [forallb] in Hascii. rewrite !andb_true_iff in Hascii.
    destruct Hascii as (Ha & Hb & Hc & Hd & He & Hf & _).
    cbn [length Nat.eqb negb andb stretched].
    rewrite toUpperCase_ascii
      by (cbn [forallb]; by rewrite Ha, Hb, Hc, Hd, He, Hf).
    cbn [fmap list_fmap]. rewrite regExp_test_six. cbn [forallb].
    destruct (ascii_unit_facts a Ha) as [_ ->].
    destruct (ascii_unit_facts b Hb) as [_ ->].
    destruct (ascii_unit_facts c Hc) as [_ ->].
    destruct (ascii_unit_facts d Hd) as [_ ->].
    destruct (ascii_unit_facts e He) as [_ ->].
    destruct (ascii_unit_facts f Hf) as [_ ->].
    destruct (hex_unit a), (hex_unit b), (hex_unit c),
      (hex_unit d), (hex_unit e), (hex_unit f); cbn;
      (split; [split; [try done; by right|intros [[? ?]|?]; done]|done]).
Qed.

(** On ASCII input [makeValidHex] is as C3 says: [HEX_NOT_VALID] exactly
    when the cleaned string has neither 3 nor 6 units or holds a unit that
    is not a hexadecimal digit, and otherwise the six units of the cleaned
    string, stretched if it has three, in upper case. *)
Theorem makeValidHex_ascii (value : jsstring) :
  forallb ascii_unit value = true →
  (makeValidHex value = HEX_NOT_VALID
   ↔ (length (cleaned value) ≠ 3%nat ∧ length (cleaned value) ≠ 6%nat)
       ∨ forallb hex_unit (cleaned value) = false)
  ∧ (makeValidHex value ≠ HEX_NOT_VALID →
      makeValidHex value = VStr (upper_ascii <$> stretched (cleaned value))
      ∧ length (upper_ascii <$> stretched (cleaned value)) = 6%nat).
Proof. exact (makeValidHex_ascii_cases value). Qed.

Lemma makeValidHex_result value h :
  makeValidHex value = VStr h → regExp_test h = true.
Proof.
  rewrite makeValidHex_cleaned. cbv zeta.
  destruct (negb _ && negb _); [done|].
  destruct (regExp_test _) eqn:E; [|done]. cbn. by intros [= <-].
Qed.

(** On ASCII input [makeValidHex] is idempotent, as C10 says. *)
Theorem makeValidHex_ascii_idempotent (value h : jsstring) :
  forallb ascii_unit value = true →
  makeValidHex value = VStr h → makeValidHex h = VStr h.
Proof.
  intros Hascii Hh. pose proof (makeValidHex_result value h Hh) as Hre.
  destruct (makeValidHex_ascii_cases value Hascii) as [_ Hvalid].
  destruct Hvalid as [Heq Hlen]; [by rewrite Hh|].
  rewrite Hh in Heq. injection Heq as Heq. rewrite <- Heq in Hlen. clear Heq.
  destruct h as [|h1 [|h2 [|h3 [|h4 [|h5 [|h6 [|h7 l]]]]]]]; try done.
  rewrite regExp_test_six in Hre. cbn [forallb] in Hre.
  rewrite !andb_true_iff in Hre.
  destruct Hre as (H1 & H2 & H3 & H4 & H5 & H6 & _).
  destruct (in_class_facts h1 H1) as [U1 Hsharp].
  destruct (in_class_facts h2 H2) as [U2 _].
  destruct (in_class_facts h3 H3) as [U3 _].
  destruct (in_class_facts h4 H4) as [U4 _].
  destruct (in_class_facts h5 H5) as [U5 _].
  destruct (in_class_facts h6 H6) as [U6 _].
  rewrite makeValidHex_cleaned.
  assert (cleaned [h1; h2; h3; h4; h5; h6] = [h1; h2; h3; h4; h5; h6]) as ->.
  { unfold cleaned. cbn [charAt Z.ltb Z.compare Z.to_nat lookup list_lookup].
    unfold eqb. rewrite bool_decide_eq_false_2; [done|].
    intros E. apply (f_equal head) in E. vm_compute in E. congruence. }
  cbv zeta. cbn [length Nat.eqb negb andb stretched].
  assert (toUpperCase [h1; h2; h3; h4; h5; h6] = [h1; h2; h3; h4; h5; h6]) as ->
    by (unfold toUpperCase; cbn [flat_map]; by rewrite U1, U2, U3, U4, U5, U6).
  rewrite regExp_test_six. cbn [forallb].
  by rewrite H1, H2, H3, H4, H5, H6.
Qed.

Lemma makeValidHex_ascii_witness :
  makeValidHex (str "#1a2b3c") = VStr (str "1A2B3C").
Proof.
  exact (proj1 (proj2 (makeValidHex_ascii (str "#1a2b3c") eq_refl)
                  ltac:(vm_compute; discriminate))).
Defined.

Lemma makeValidHex_ascii_idempotent_witness :
  makeValidHex (str "AABBCC") = VStr (str "AABBCC").
Proof.
  exact (makeValidHex_ascii_idempotent (str "abc") (str "AABBCC")
           eq_refl ltac:(vm_compute; reflexivity)).
Defined.

(** *** From HEX to RGB and back *)

Lemma in_class_digit c :
  in_class c = true →
  0 <= upper_hex_value c <= 15 ∧ upper_hex_digit (upper_hex_value c) = c.
Proof.
  unfold in_class. rewrite orb_true_iff, andb_true_iff.
  rewrite bool_decide_eq_true, !N.leb_le.
  change (str "ABCEDF") with [65; 66; 67; 69; 68; 70]%N.
  unfold upper_hex_value, upper_hex_digit.
  intros [?|H].
  - destruct (N.leb_spec c 57); [|lia].
    destruct (Z.ltb_spec (Z.of_N c - 48) 10); lia.
  - set_unfold.
    destruct (N.leb_spec c 57); [lia|].
    destruct (Z.ltb_spec (Z.of_N c - 55) 10); lia.
Qed.

Lemma in_class_pair a b :
  in_class a = true → in_class b = true →
  ∃ n, channel n ∧ [a; b] = two_hex_digits n.
Proof.
  intros Ha Hb.
  destruct (in_class_digit a Ha) as [Hra Hda], (in_class_digit b Hb) as [Hrb Hdb].
  exists (16 * upper_hex_value a + upper_hex_value b).
  split; [unfold channel; lia|]. unfold two_hex_digits.
  replace ((16 * upper_hex_value a + upper_hex_value b) / 16)
    with (upper_hex_value a)
    by (apply (Z.div_unique _ _ _ (upper_hex_value b)); lia).
  replace ((16 * upper_hex_value a + upper_hex_value b) mod 16)
    with (upper_hex_value b)
    by (apply (Z.mod_unique _ _ (upper_hex_value a)); lia).
  by rewrite Hda, Hdb.
Qed.

(** For a normalized string (six units of the class of [makeValidHex]) and
    the preference [isHexSharp] off, [rgb2hex] of [hex2rgb] is the string. *)
Theorem hex_rgb_hex_round_trip (p : prefs) (h : jsstring) :
  isHexSharp p ≠ str "true" →
  length h = 6%nat → forallb in_class h = true →
  hex_rgb_hex p h = Some h.
Proof.
  intros Hp Hlen Hclass.
  destruct h as [|a1 [|a2 [|a3 [|a4 [|a5 [|a6 [|a7 l]]]]]]]; try done.
  cbn [forallb] in Hclass. rewrite !andb_true_iff in Hclass.
  destruct Hclass as (H1 & H2 & H3 & H4 & H5 & H6 & _).
  destruct (in_class_pair a1 a2 H1 H2) as (r & Hr & Er).
  destruct (in_class_pair a3 a4 H3 H4) as (g & Hg & Eg).
  destruct (in_class_pair a5 a6 H5 H6) as (b & Hb & Eb).
  unfold hex_rgb_hex.
  change (hex2rgb [a1; a2; a3; a4; a5; a6])
    with [parseInt [a1; a2] 16; parseInt [a3; a4] 16; parseInt [a5; a6] 16].
  rewrite Er, Eg, Eb, !parseInt_two_hex_digits by done.
  rewrite rgb2hex_hex_pairs, !hex_pair_two_hex_digits by done.
  destruct (eqb (isHexSharp p) (str "true")) eqn:E;
    [by apply eqb_eq in E|].
  by rewrite <- Er, <- Eg, <- Eb.
Qed.

Lemma hex_rgb_hex_round_trip_witness :
  hex_rgb_hex initial_prefs (str "FF0080") = Some (str "FF0080").
Proof.
  exact (hex_rgb_hex_round_trip initial_prefs (str "FF0080")
           ltac:(vm_compute; discriminate) eq_refl eq_refl).
Defined.

(** *** The claims on every string *)

(** The four examples of C3. *)
Lemma makeValidHex_examples :
  makeValidHex (str "abc") = VStr (str "AABBCC")
  ∧ makeValidHex (str "#1a2b3c") = VStr (str "1A2B3C")
  ∧ makeValidHex (str "12") = HEX_NOT_VALID
  ∧ makeValidHex (str "GGHHII") = HEX_NOT_VALID.
Proof. repeat split; vm_compute; reflexivity. Qed.

(** C3 fails on the code: the six units of ["12345\uFB01"] end in the
    ligature fi, outside [0-9A-F] in either case; [toUpperCase] makes seven
    units of them, ["12345FI"], of which the pattern matches the first six,
    so the string is returned, with its [I], instead of [HEX_NOT_VALID]. *)
Theorem makeValidHex_ligature_accepted :
  length (str "12345" ++ [64257%N]) = 6%nat
  ∧ makeValidHex (str "12345" ++ [64257%N]) = VStr (str "12345FI").
Proof. split; vm_compute; reflexivity. Qed.

(** C10 fails on the code: ["\uFB0012345"], six units that start with the
    ligature ff, gives the seven units ["FF12345"], and [makeValidHex] of
    these cuts them to ["FF1234"]. *)
Theorem makeValidHex_not_idempotent :
  makeValidHex (64256%N :: str "12345") = VStr (str "FF12345")
  ∧ makeValidHex (str "FF12345") = VStr (str "FF1234").
Proof. split; vm_compute; reflexivity. Qed.

(** ** Formatting *)

(** The loop of [formatCmykOutput] replaces the elements one by one: with
    the elements before [i] done and [body] defined on the others, it ends
    with the whole array replaced, in the same place of the heap. *)
Lemma format_loop_spec body (a : loc) :
  ∀ (todo todo' done : list jsval) (h : heap),
    h !! a = Some (done ++ todo) →
    Forall2 (λ v v', body v = Ok v') todo todo' →
    format_loop body a (length todo) (length done) h
    = Ok (<[a := done ++ todo']> h).
Proof.
  induction todo as [|v todo IH]; intros todo' done h Ha Hbody.
  - apply Forall2_nil_inv_l in Hbody as ->. simpl.
    rewrite app_nil_r in *. by rewrite insert_id.
  - apply Forall2_cons_inv_l in Hbody as (v' & rest & Hv & Hrest & ->).
    simpl. rewrite Ha.
    assert (length done < length (done ++ v :: todo))%nat as Hlt
      by (rewrite length_app; simpl; lia).
    apply Nat.ltb_lt in Hlt. rewrite Hlt.
    rewrite list_lookup_middle by done. rewrite Hv. simpl.
    replace (<[length done := v']> (done ++ v :: todo))
      with ((done ++ [v']) ++ todo).
    2:{ rewrite <- (Nat.add_0_r (length done)), insert_app_r. simpl.
        by rewrite <- app_assoc. }
    replace (S (length done)) with (length (done ++ [v']))
      by (rewrite length_app; simpl; lia).
    rewrite (IH rest (done ++ [v'])); [|by rewrite lookup_insert_eq|done].
    by rewrite insert_insert_eq, <- app_assoc.
Qed.

(** [formatCmykOutput] returns its argument, and the heap with the array
    of the argument replaced by its formatted elements. *)
Lemma formatCmykOutput_spec p (a : loc) (h : heap) arr arr' :
  h !! a = Some arr →
  Forall2 (λ v v', format_body p v = Ok v') arr arr' →
  formatCmykOutput p a h = Ok (a, <[a := arr']> h).
Proof.
  intros Ha Hbody. unfold formatCmykOutput. rewrite Ha.
  fold (format_body p).
  rewrite (format_loop_spec _ a arr arr' [] h); done.
Qed.

(** C9, as stated, fails: after the call the array of the caller holds the
    four strings, and no longer its four numbers. *)
Lemma formatCmykOutput_modifies_argument :
  ∃ h' : heap,
    formatCmykOutput initial_prefs 7 example_heap = Ok (7%nat, h')
    ∧ example_heap !! 7%nat = Some [VNum 0.5; VNum 0.25; VNum 1; VNum 0]
    ∧ h' !! 7%nat = Some [VStr (str "0.500"); VStr (str "0.250");
                          VStr (str "1.000"); VStr (str "0.000")]
    ∧ h' !! 7%nat ≠ example_heap !! 7%nat.
Proof.
  eexists. split.
  - apply (formatCmykOutput_spec _ _ _ [VNum 0.5; VNum 0.25; VNum 1; VNum 0]
             [VStr (str "0.500"); VStr (str "0.250");
              VStr (str "1.000"); VStr (str "0.000")]); [done|].
    repeat constructor; vm_compute; reflexivity.
  - rewrite lookup_insert_eq. repeat split; done.
Qed.

(** ** The formatted strings *)

Lemma fixed_table_ok : all_below 1001 fixed_check = true.
Proof. vm_cast_no_check (eq_refl true). Qed.

Lemma format_percent_unit v :
  unit_range v = true →
  ∃ s, format_percent (VNum v) = Ok (VStr s) ∧ percent_string v s.
Proof.
  intros Hv. destruct (unit_range_R v Hv) as [Fv Vv].
  destruct fval_100 as [F100 V100]. pose proof bpow_m41 as Heps.
  pose proof bpow_9 as H9.
  destruct (mul_R v 100 Fv F100) as [Fu Vu].
  { apply Rabs_le. rewrite V100. lra. }
  apply Rabs_le_inv in Vu. rewrite V100 in Vu.
  destruct (Math_round_range (v * 100) 100 ltac:(lia) Fu ltac:(lra))
    as (n & Hn & Hnear & Hres).
  exists (decimal n ++ str " %"). split.
  - unfold format_percent.
    rewrite (rounded_to_string _ n) by (done || lia). done.
  - exists n. repeat split; [lia|lia| |apply Rabs_le; lra].
    apply rounded_eqb; [lia|done].
Qed.

Lemma toFixed_unit v :
  unit_range v = true →
  ∃ n, 0 <= n <= 1000
    ∧ toFixed v 3 = Ok (fixed_digits n 3)
    ∧ (Rabs (IZR n - 1000 * fval v) <= / 2)%R.
Proof.
  intros Hv. unfold toFixed, fval. cbn [Z.ltb Z.compare orb].
  destruct (unit_range_Z v Hv) as [[s ->]|(m & p & -> & Hm)].
  - exists 0. split; [lia|]. split; [done|].
    cbn [sf_val]. rewrite Rmult_0_r, Rminus_diag, Rabs_R0. lra.
  - set (P := 2 ^ Zpos p) in *.
    assert (0 < P) as HP by (apply Z.pow_pos_nonneg; lia).
    assert (ge_1e21 m (Zneg p) = false) as ->.
    { unfold ge_1e21. apply Z.leb_gt.
      change (Z.pow_pos 2 p) with P.
      change (10 ^ 21) with 1000000000000000000000. nia. }
    unfold round_half_up.
    change (Z.pow_pos 2 p) with P.
    change (Z.pow_pos 2 (Pos.succ p)) with (2 ^ Zpos (Pos.succ p)).
    rewrite Pos2Z.inj_succ, Z.pow_succ_r by lia. fold P.
    change (10 ^ 3) with 1000.
    set (n := (2 * (Zpos m * 1000) + P) / (2 * P)).
    assert (0 <= n) as Hn0 by (apply Z.div_pos; lia).
    assert (n < 1001) as Hn1 by (apply Z.div_lt_upper_bound; lia).
    exists n. split; [lia|]. split; [done|].
    pose proof (Z.mul_div_le (2 * (Zpos m * 1000) + P) (2 * P) ltac:(lia)) as H1.
    pose proof (Z.mul_succ_div_gt (2 * (Zpos m * 1000) + P) (2 * P)
                  ltac:(lia)) as H2.
    fold n in H1, H2. apply IZR_le in H1. apply IZR_lt in H2.
    unfold Z.succ in H2.
    repeat (rewrite plus_IZR in H1 || rewrite mult_IZR in H1).
    repeat (rewrite plus_IZR in H2 || rewrite mult_IZR in H2).
    cbn [sf_val].
    pose proof (bpow_neg_pos p) as Hb. fold P in Hb.
    pose proof (IZR_lt 0 P HP) as HPR.
    assert (IZR (Zpos m) = IZR (Zpos m) * bpow (Z.neg p) * IZR P)%R as Hv'
      by (rewrite Rmult_assoc, Hb; ring).
    apply Rabs_le. split.
    + apply (Rmult_le_reg_r (IZR P)); [done|]. nra.
    + apply (Rmult_le_reg_r (IZR P)); [done|]. nra.
Qed.

Lemma fixed_digits_shape n :
  0 <= n <= 1000 →
  ∃ d0 d1 d2 d3 : Z,
    (0 <= d0 <= 9 ∧ 0 <= d1 <= 9 ∧ 0 <= d2 <= 9 ∧ 0 <= d3 <= 9)
    ∧ fixed_digits n 3 = [digit d0; 46%N; digit d1; digit d2; digit d3]
    ∧ 1000 * d0 + 100 * d1 + 10 * d2 + d3 = n.
Proof.
  intros Hn.
  assert (fixed_check n = true) as H
    by (apply (all_below_spec 1001 fixed_check); [apply fixed_table_ok|lia]).
  unfold fixed_check in H. cbv zeta in H. cbn [forallb] in H.
  repeat (apply andb_true_iff in H as [H ?]).
  apply eqb_eq in H.
  exists (n / 1000), (n / 100 mod 10), (n / 10 mod 10), (n mod 10).
  split; [|split; [done|]]; lia.
Qed.

Lemma format_fixed_unit v :
  unit_range v = true →
  ∃ s, format_fixed (VNum v) = Ok (VStr s) ∧ fixed_string v s.
Proof.
  intros Hv. destruct (toFixed_unit v Hv) as (n & Hn & Hfix & Hnear).
  destruct (fixed_digits_shape n Hn) as (d0 & d1 & d2 & d3 & Hd & Hs & Hsum).
  exists (fixed_digits n 3). split.
  - unfold format_fixed. by rewrite Hfix.
  - exists d0, d1, d2, d3. split; [done|]. split; [done|]. by rewrite Hsum.
Qed.

Lemma format_body_unit p v :
  unit_range v = true →
  ∃ s, format_body p (VNum v) = Ok (VStr s) ∧ formatted p v s.
Proof.
  intros Hv. unfold format_body, formatted.
  destruct (eqb _ _); [by apply format_percent_unit|by apply format_fixed_unit].
Qed.

Lemma format_body_all p vs :
  Forall (fun v => unit_range v = true) vs →
  ∃ ss,
    Forall2 (formatted p) vs ss
    ∧ Forall2 (fun v v' => format_body p v = Ok v') (VNum <$> vs) (VStr <$> ss).
Proof.
  induction 1 as [|v vs Hv _ (ss & Hf & Hb)].
  - exists []. split; constructor.
  - destruct (format_body_unit p v Hv) as (s & Hs & Hfs).
    exists (s :: ss). split; by constructor.
Qed.

(** C7: for four CMYK values (numbers from 0 to 1), [formatCmykOutput]
    replaces each by a string: with the preference [isCMYKPercent] on, the
    integer [Math.round(value * 100)] followed by [" %"]; otherwise one
    digit, the point and exactly three digits, zeros included.  The values
    [0.5, 0.25, 1, 0] give ["50 %", "25 %", "100 %", "0 %"] and ["0.500",
    "0.250", "1.000", "0.000"]. *)
Theorem formatCmykOutput_formats :
  (∀ p (a : loc) (h : heap) v0 v1 v2 v3,
     h !! a = Some [VNum v0; VNum v1; VNum v2; VNum v3] →
     unit_range v0 = true → unit_range v1 = true →
     unit_range v2 = true → unit_range v3 = true →
     ∃ s0 s1 s2 s3,
       formatCmykOutput p a h
       = Ok (a, <[a := [VStr s0; VStr s1; VStr s2; VStr s3]]> h)
       ∧ formatted p v0 s0 ∧ formatted p v1 s1
       ∧ formatted p v2 s2 ∧ formatted p v3 s3)
  ∧ formatCmykOutput percent_prefs 7 example_heap
     = Ok (7%nat, <[7%nat := [VStr (str "50 %"); VStr (str "25 %");
                              VStr (str "100 %"); VStr (str "0 %")]]>
                    example_heap)
  ∧ formatCmykOutput initial_prefs 7 example_heap
     = Ok (7%nat, <[7%nat := [VStr (str "0.500"); VStr (str "0.250");
                              VStr (str "1.000"); VStr (str "0.000")]]>
                    example_heap).
Proof.
  split; [|split].
  - intros p a h v0 v1 v2 v3 Ha H0 H1 H2 H3.
    destruct (format_body_unit p v0 H0) as (s0 & Hb0 & Hf0).
    destruct (format_body_unit p v1 H1) as (s1 & Hb1 & Hf1).
    destruct (format_body_unit p v2 H2) as (s2 & Hb2 & Hf2).
    destruct (format_body_unit p v3 H3) as (s3 & Hb3 & Hf3).
    exists s0, s1, s2, s3. split; [|done].
    apply (formatCmykOutput_spec p a h _ _ Ha). by repeat constructor.
  - apply (formatCmykOutput_spec _ _ _ [VNum 0.5; VNum 0.25; VNum 1; VNum 0]);
      [done|]. repeat constructor; vm_compute; reflexivity.
  - apply (formatCmykOutput_spec _ _ _ [VNum 0.5; VNum 0.25; VNum 1; VNum 0]);
      [done|]. repeat constructor; vm_compute; reflexivity.
Qed.

Lemma formatCmykOutput_formats_witness :
  ∃ s0 s1 s2 s3,
    formatCmykOutput percent_prefs 7 example_heap
    = Ok (7%nat, <[7%nat := [VStr s0; VStr s1; VStr s2; VStr s3]]> example_heap)
    ∧ formatted percent_prefs 0.5 s0 ∧ formatted percent_prefs 0.25 s1
    ∧ formatted percent_prefs 1 s2 ∧ formatted percent_prefs 0 s3.
Proof.
  exact (proj1 formatCmykOutput_formats percent_prefs 7%nat example_heap
           0.5%float 0.25%float 1%float 0%float
           eq_refl eq_refl eq_refl eq_refl eq_refl).
Defined.

(** C9, amended: [formatCmykOutput] works in place.  It returns the
    reference it was given, and in the heap the array of the caller holds
    the formatted strings, one for each of its numbers; nothing else of the
    heap changes. *)
Theorem formatCmykOutput_in_place p (a : loc) (h : heap) (vs : list float) :
  h !! a = Some (VNum <$> vs) →
  Forall (fun v => unit_range v = true) vs →
  ∃ ss,
    Forall2 (formatted p) vs ss
    ∧ formatCmykOutput p a h = Ok (a, <[a := VStr <$> ss]> h).
Proof.
  intros Ha Hvs. destruct (format_body_all p vs Hvs) as (ss & Hf & Hb).
  exists ss. split; [done|]. by apply (formatCmykOutput_spec p a h _ _ Ha).
Qed.

Lemma formatCmykOutput_in_place_witness :
  ∃ ss,
    Forall2 (formatted initial_prefs) [0.5; 0.25; 1; 0]%float ss
    ∧ formatCmykOutput initial_prefs 7 example_heap
       = Ok (7%nat, <[7%nat := VStr <$> ss]> example_heap).
Proof.
  exact (formatCmykOutput_in_place initial_prefs 7%nat example_heap
           [0.5; 0.25; 1; 0]%float eq_refl
           ltac:(repeat constructor)).
Defined.

(** ** Rounding: the numbers of large integers *)

Lemma digits2_pos_unique (m : positive) a :
  2 ^ (a - 1) <= Zpos m < 2 ^ a → Zpos (digits2_pos m) = a.
Proof.
  intros [Hl Hu]. pose proof (digits2_pos_bounds m) as [Hl' Hu'].
  destruct (Z_lt_le_dec a 0) as [Hneg|Hnn];
    [rewrite Z.pow_neg_r in Hu by done; lia|].
  assert (a - 1 < Zpos (digits2_pos m))
    by (apply (Z.pow_lt_mono_r_iff 2); lia).
  assert (Zpos (digits2_pos m) - 1 < a)
    by (apply (Z.pow_lt_mono_r_iff 2); lia).
  lia.
Qed.

Lemma binary_round_aux_large sx (M : positive) E :
  53 <= Zpos (digits2_pos M) → -1021 <= Zpos (digits2_pos M) + E →
  binary_round_aux prec emax sx (Zpos M) E loc_Exact = S754_infinity sx
  ∨ ∃ m e,
      binary_round_aux prec emax sx (Zpos M) E loc_Exact = S754_finite sx m e
      ∧ Zpos (digits2_pos m) = 53
      ∧ Zpos (digits2_pos M) + E - 53 <= e <= 971.
Proof.
  intros Hd Hmag. unfold binary_round_aux, shr_fexp. cbn [Zdigits2].
  set (d := Zpos (digits2_pos M)) in *.
  set (f1 := fexp prec emax (d + E)).
  assert (f1 = d + E - 53) as Hf1 by (unfold f1; rewrite fexp_eq; lia).
  pose proof (shr_spec (shr_record_of_loc (Zpos M) loc_Exact) E (f1 - E)
                ltac:(simpl; lia)) as [Hq He'].
  destruct (shr _ E (f1 - E)) as [mrs' e']. cbn [fst snd] in Hq, He'.
  cbn [shr_record_of_loc shr_m] in Hq.
  rewrite Z.max_r in Hq, He' by lia.
  set (n1 := f1 - E) in *.
  set (q := shr_m mrs') in *.
  set (m1 := round_nearest_even q (loc_of_shr_record mrs')).
  pose proof (round_nearest_even_bounds q (loc_of_shr_record mrs')) as Hm1.
  fold m1 in Hm1.
  assert (0 < 2 ^ n1) as HA by (apply Z.pow_pos_nonneg; lia).
  pose proof (digits2_pos_bounds M) as [HMl HMu]. fold d in HMl, HMu.
  pose proof (Z.mul_div_le (Zpos M) (2 ^ n1) HA) as Hq1.
  pose proof (Z.mul_succ_div_gt (Zpos M) (2 ^ n1) HA) as Hq2.
  rewrite <- Hq in Hq1, Hq2.
  assert (2 ^ (d - 1) = 2 ^ 52 * 2 ^ n1) as Hs1
    by (rewrite <- Z.pow_add_r by lia; f_equal; lia).
  assert (2 ^ d = 2 ^ 53 * 2 ^ n1) as Hs2
    by (rewrite <- Z.pow_add_r by lia; f_equal; lia).
  assert (2 ^ 52 <= q < 2 ^ 53) as Hqr by nia.
  assert (e' = f1) as -> by lia.
  pose proof (shr_spec (shr_record_of_loc m1 loc_Exact) f1
                (fexp prec emax (Zdigits2 m1 + f1) - f1)
                ltac:(simpl; lia)) as [Hm2 He''].
  destruct (shr _ f1 _) as [mrs'' e'']. cbn [fst snd] in Hm2, He''.
  cbn [shr_record_of_loc shr_m] in Hm2.
  assert (2 ^ 52 <= shr_m mrs'' < 2 ^ 53 ∧ f1 <= e'' <= f1 + 1) as [Hm2r He2].
  { destruct (Z_lt_le_dec m1 (2 ^ 53)) as [Hlt|Hge].
    - assert (Zdigits2 m1 = 53) as Hd1.
      { destruct m1 as [|p|p] eqn:Ep; try lia. simpl.
        apply digits2_pos_unique. lia. }
      rewrite Hd1, fexp_eq in Hm2, He''.
      rewrite Z.max_l in Hm2, He'' by lia.
      change (2 ^ 0) with 1 in Hm2. rewrite Z.div_1_r in Hm2. lia.
    - assert (m1 = 2 ^ 53) as Hm1e by lia.
      assert (Zdigits2 m1 = 54) as Hd1 by (by rewrite Hm1e).
      rewrite Hd1, fexp_eq in Hm2, He''.
      replace (Z.max 0 (Z.max (54 + f1 - 53) (-1074) - f1)) with 1
        in Hm2, He'' by lia.
      rewrite Hm1e in Hm2. change (2 ^ 53 / 2 ^ 1) with (2 ^ 52) in Hm2.
      lia. }
  destruct (shr_m mrs'') as [|m2|m2] eqn:Em2; try lia.
  destruct (Z.leb_spec e'' (emax - prec)) as [Hle|Hgt]; [|by left].
  right. exists m2, e''. split; [done|]. split.
  - apply digits2_pos_unique. lia.
  - unfold emax, prec in Hle. lia.
Qed.

Lemma binary_round_large s (p : positive) :
  9 <= Zpos (digits2_pos p) →
  binary_round prec emax s p 0 = S754_infinity s
  ∨ ∃ m e,
      binary_round prec emax s p 0 = S754_finite s m e
      ∧ Zpos (digits2_pos m) = 53
      ∧ Zpos (digits2_pos p) - 53 <= e <= 971.
Proof.
  intros Hd. unfold binary_round.
  pose proof (shl_align_spec p 0 (fexp prec emax (Zpos (digits2_pos p) + 0)))
    as Hal.
  destruct (shl_align p 0 _) as [mz ez]. destruct Hal as [Hez Hmz].
  rewrite fexp_eq in Hez.
  pose proof (digits2_pos_bounds p) as [Hl Hu].
  assert (Zpos (digits2_pos mz) = Zpos (digits2_pos p) - ez) as Hdz.
  { apply digits2_pos_unique. rewrite Hmz.
    replace (Zpos (digits2_pos p) - ez - 1)
      with (Zpos (digits2_pos p) - 1 + (0 - ez)) by lia.
    replace (Zpos (digits2_pos p) - ez)
      with (Zpos (digits2_pos p) + (0 - ez)) by lia.
    rewrite !Z.pow_add_r by lia.
    assert (0 < 2 ^ (0 - ez)) by (apply Z.pow_pos_nonneg; lia). nia. }
  destruct (binary_round_aux_large s mz ez) as [H|(m & e & H & Hm & He)];
    [lia|lia|by left|].
  right. exists m, e. repeat split; try done; lia.
Qed.

(** The number of an integer from 256 is an infinity or a number with a
    full mantissa and an exponent of -44 at least: it is above 255. *)
Lemma of_pos_large p :
  256 <= Zpos p →
  Prim2SF (of_pos p) = S754_infinity false
  ∨ ∃ m e,
      Prim2SF (of_pos p) = S754_finite false m e
      ∧ Zpos (digits2_pos m) = 53 ∧ -44 <= e <= 971.
Proof.
  intros Hp.
  assert (9 <= Zpos (digits2_pos p)) as Hd.
  { pose proof (digits2_pos_bounds p) as [_ Hu].
    assert (2 ^ 8 < 2 ^ Zpos (digits2_pos p)) as H by (simpl; lia).
    apply Z.pow_lt_mono_r_iff in H; lia. }
  assert (Prim2SF (of_pos p) = binary_round prec emax false p 0) as ->.
  { unfold of_pos. destruct (Z.ltb_spec (Zpos p) (2 ^ 63)) as [Hlt|Hge].
    - rewrite FloatAxioms.of_uint63_spec, Uint63.of_Z_spec.
      rewrite Z.mod_small by (change Uint63Axioms.wB with (2 ^ 63); lia).
      reflexivity.
    - apply FloatAxioms.Prim2SF_SF2Prim.
      destruct (binary_round_large false p Hd) as [->|(m & e & -> & Hm & He)];
        [done|].
      unfold valid_binary, SpecFloat.bounded, canonical_mantissa.
      rewrite Hm, fexp_eq. apply andb_true_iff. split.
      + apply Z.eqb_eq. lia.
      + apply Z.leb_le. unfold emax, prec. lia. }
  destruct (binary_round_large false p Hd) as [->|(m & e & -> & Hm & He)];
    [by left|].
  right. exists m, e. repeat split; try done; lia.
Qed.

(** ** The numbers of the channels *)

Lemma zero_cases x s : Prim2SF x = S754_zero s → x = zero ∨ x = neg_zero.
Proof.
  intros H. rewrite <- (FloatAxioms.SF2Prim_Prim2SF x), H.
  destruct s; [by right|by left].
Qed.

Lemma valid_table_ok : all_below 256 valid_check = true.
Proof. vm_cast_no_check (eq_refl true). Qed.

Lemma valid_channel n :
  channel n →
  makeValidRgb (of_Z n) = of_Z n
  ∧ parseInt (decimal n) 10 = of_Z n
  ∧ channel_value (makeValidRgb (- of_Z n)) 0
  ∧ channel_value (of_Z n) n.
Proof.
  intros Hn.
  assert (valid_check n = true) as H
    by (apply (all_below_spec 256 valid_check);
        auto using valid_table_ok, channel_below).
  unfold valid_check in H. cbv zeta in H.
  rewrite !andb_true_iff, !orb_true_iff in H.
  destruct H as [[[H1 H2] H3] H4].
  apply feqb_eq in H1, H2. repeat split; try done.
  - right. split; [done|].
    destruct H3 as [H3|H3]; apply feqb_eq in H3; rewrite H3;
      [by exists false|by exists true].
  - destruct H4 as [H4|H4].
    + apply Z.eqb_eq in H4. subst n. right. split; [done|by exists false].
    + left. split; [|done]. intros ->. by vm_compute in H4.
Qed.

Lemma channel_value_to_string x n :
  channel n → channel_value x n → number_to_string x = Ok (decimal n).
Proof. intros Hn Hx. by apply rounded_to_string. Qed.

Lemma channel_value_hex_pair x n :
  channel n → channel_value x n → hex_pair x = two_hex_digits n.
Proof.
  intros Hn [[_ ->]|[-> [s Hs]]]; [by apply hex_pair_two_hex_digits|].
  by destruct (zero_cases x s Hs) as [-> | ->].
Qed.

Lemma channel_value_cmy x n :
  channel n → channel_value x n → (1 - x / 255)%float = cmy n.
Proof.
  intros Hn [[_ ->]|[-> [s Hs]]]; [done|].
  by destruct (zero_cases x s Hs) as [-> | ->].
Qed.

Lemma rgb2cmyk_channel_value x y z r g b :
  channel r → channel g → channel b →
  channel_value x r → channel_value y g → channel_value z b →
  rgb2cmyk x y z = rgb2cmyk (of_Z r) (of_Z g) (of_Z b).
Proof.
  intros Hr Hg Hb Hx Hy Hz. unfold rgb2cmyk, rgb2cmyk_fK.
  rewrite (channel_value_cmy x r), (channel_value_cmy y g),
    (channel_value_cmy z b) by done.
  reflexivity.
Qed.

Lemma rgb2hex_channel_value p x y z r g b :
  channel r → channel g → channel b →
  channel_value x r → channel_value y g → channel_value z b →
  rgb2hex p x y z = shown_hex p (hex_digits r g b).
Proof.
  intros Hr Hg Hb Hx Hy Hz. rewrite rgb2hex_hex_pairs.
  rewrite (channel_value_hex_pair x r), (channel_value_hex_pair y g),
    (channel_value_hex_pair z b) by done.
  unfold shown_hex, hex_digits. by destruct (eqb _ _).
Qed.

(** ** Every string gives a channel *)

Lemma digits_prefix_nonneg radix s : Forall (λ d, 0 <= d) (digits_prefix radix s).
Proof.
  induction s as [|c s IH]; simpl; [done|].
  destruct (digit_value c) as [d|] eqn:E; [|done].
  destruct (d <? radix); [|done]. constructor; [|done].
  unfold digit_value in E.
  repeat (destruct (_ && _) in E; [injection E as <-; lia|]). done.
Qed.

Lemma digits_value_nonneg radix ds :
  0 <= radix → Forall (λ d, 0 <= d) ds → 0 <= digits_value radix ds.
Proof.
  intros Hr. unfold digits_value.
  assert (∀ a, 0 <= a → Forall (λ d, 0 <= d) ds →
            0 <= fold_left (λ a d, radix * a + d) ds a) as H.
  { induction ds as [|d ds IH]; simpl; intros a Ha Hds; [done|].
    inversion Hds; subst. apply IH; [nia|done]. }
  by apply H.
Qed.

(** [parseInt] gives NaN, or the number of a natural number or its
    opposite. *)
Lemma parseInt_cases s radix :
  0 <= radix →
  parseInt s radix = nan
  ∨ ∃ z, 0 <= z ∧ (parseInt s radix = of_Z z ∨ parseInt s radix = (- of_Z z)%float).
Proof.
  intros Hr. unfold parseInt.
  destruct (match skip_white s with
            | 45%N :: r => (true, r) | 43%N :: r => (false, r)
            | _ => (false, skip_white s) end) as [neg s1].
  set (s2 := if radix =? 16 then _ else _). clearbody s2.
  pose proof (digits_prefix_nonneg radix s2) as Hds.
  destruct (digits_prefix radix s2) as [|d ds] eqn:E; [by left|].
  right. exists (digits_value radix (d :: ds)).
  split; [by apply digits_value_nonneg|].
  unfold digits_value. destruct neg; [by right|by left].
Qed.

Lemma ltb_255_large x :
  Prim2SF x = S754_infinity false
  ∨ (∃ m e, Prim2SF x = S754_finite false m e
       ∧ Zpos (digits2_pos m) = 53 ∧ -44 <= e <= 971) →
  is_nan x = false ∧ (x <? 0)%float = false ∧ (255 <? x)%float = true
  ∧ (- x <? 0)%float = true.
Proof.
  intros H. rewrite is_nan_false, !FloatAxioms.ltb_spec, FloatAxioms.opp_spec.
  destruct H as [->|(m & e & -> & Hm & He)]; [done|].
  repeat split; try done.
  change (Prim2SF 255) with (S754_finite false 8972014882652160 (-45)).
  unfold SFltb, SFcompare.
  destruct (Z.compare_spec (-45) e); (done || lia).
Qed.

Lemma validated_channel s :
  ∃ n, channel n ∧ channel_value (makeValidRgb (parseInt s 10)) n.
Proof.
  destruct (parseInt_cases s 10 ltac:(lia)) as [->|(z & Hz & H)].
  - exists 0. split; [unfold channel; lia|]. right. split; [done|by exists false].
  - destruct (Z_le_gt_dec z 255) as [Hle|Hgt].
    + assert (channel z) as Hc by (unfold channel; lia).
      destruct (valid_channel z Hc) as (H1 & _ & H3 & H4).
      destruct H as [-> | ->].
      * exists z. by rewrite H1.
      * exists 0. split; [unfold channel; lia|done].
    + destruct z as [|p|p]; try lia.
      destruct (ltb_255_large (of_pos p) (of_pos_large p ltac:(lia)))
        as (Hnan & Hneg & Hbig & Hopp).
      destruct H as [-> | ->]; unfold makeValidRgb, isNaN, of_Z.
      * rewrite Hnan, Hneg, Hbig. simpl. exists 255.
        split; [unfold channel; lia|]. by left.
      * rewrite Hopp, orb_true_r. exists 0.
        split; [unfold channel; lia|]. right. split; [done|by exists false].
Qed.

(** ** What the handlers show *)

Lemma rgb2cmyk_unit r g b :
  channel r → channel g → channel b →
  ∃ v0 v1 v2 v3,
    rgb2cmyk (of_Z r) (of_Z g) (of_Z b) = [v0; v1; v2; v3]
    ∧ unit_range v0 = true ∧ unit_range v1 = true
    ∧ unit_range v2 = true ∧ unit_range v3 = true.
Proof.
  intros Hr Hg Hb. rewrite rgb2cmyk_components. cbv zeta.
  rewrite rgb2cmyk_fK_cmy by done.
  set (m := Z.max r (Z.max g b)).
  assert (channel m) as Hm by (unfold channel in *; lia).
  destruct (cmy_black m Hm) as (Hk & _ & _).
  do 4 eexists. split; [reflexivity|].
  repeat split; try done; apply cmyk_component_unit_range; (done || lia).
Qed.

Lemma format_of_unit p v :
  unit_range v = true → ∃ s, format_of p v s.
Proof.
  intros Hv. destruct (format_body_unit p v Hv) as (s & H1 & H2).
  by exists s.
Qed.

Lemma format_of_inj p v s t : format_of p v s → format_of p v t → s = t.
Proof. intros [H1 _] [H2 _]. congruence. Qed.

(** The formatted array of a handler, and the values read from it. *)
Lemma formatted_array p v0 v1 v2 v3 c m y k :
  format_of p v0 c → format_of p v1 m → format_of p v2 y → format_of p v3 k →
  let a := fresh (dom (∅ : gmap nat (list jsval))) in
  let h := <[a := [VNum v0; VNum v1; VNum v2; VNum v3]]> (∅ : gmap nat (list jsval)) in
  ∃ h', formatCmykOutput p a h = Ok (a, h')
        ∧ formatted_values h' a = Ok (c, m, y, k).
Proof.
  intros [H0 _] [H1 _] [H2 _] [H3 _] a h.
  exists (<[a := [VStr c; VStr m; VStr y; VStr k]]> h). split.
  - apply (formatCmykOutput_spec p a h
             [VNum v0; VNum v1; VNum v2; VNum v3]);
      [by apply lookup_insert_eq|by repeat constructor].
  - unfold formatted_values, element. rewrite lookup_insert_eq. reflexivity.
Qed.

Lemma updateColorDemo_shown p h d :
  updateColorDemo p (shown_hex p h) d
  = {| rgb_R := rgb_R d; rgb_G := rgb_G d; rgb_B := rgb_B d;
       cmyk_C := cmyk_C d; cmyk_M := cmyk_M d; cmyk_Y := cmyk_Y d;
       cmyk_K := cmyk_K d; hex := hex d;
       hex_sharp := hex_sharp d; cmyk_percent := cmyk_percent d;
       colorDemo := Some (demo_colour p h); alerts := alerts d |}.
Proof.
  unfold updateColorDemo, shown_hex, demo_colour. f_equal. f_equal.
  destruct (eqb (isHexSharp p) (str "true")) eqn:E1;
    destruct (eqb (isHexSharp p) (str "false")) eqn:E2; try done.
  apply eqb_eq in E1, E2. rewrite E1 in E2. by vm_compute in E2.
Qed.

Lemma rgbChanged_spec p d r g b :
  channel r → channel g → channel b →
  channel_value (makeValidRgb (parseInt (rgb_R d) 10)) r →
  channel_value (makeValidRgb (parseInt (rgb_G d) 10)) g →
  channel_value (makeValidRgb (parseInt (rgb_B d) 10)) b →
  ∃ c m y k,
    Forall2 (format_of p) (rgb2cmyk (of_Z r) (of_Z g) (of_Z b)) [c; m; y; k]
    ∧ rgbChanged p d = Ok (shows p d r g b c m y k).
Proof.
  intros Hr Hg Hb Vr Vg Vb.
  destruct (rgb2cmyk_unit r g b Hr Hg Hb)
    as (v0 & v1 & v2 & v3 & Hv & U0 & U1 & U2 & U3).
  destruct (format_of_unit p v0 U0) as [c Hc].
  destruct (format_of_unit p v1 U1) as [m Hm].
  destruct (format_of_unit p v2 U2) as [y Hy].
  destruct (format_of_unit p v3 U3) as [k Hk].
  exists c, m, y, k. rewrite Hv. split; [by repeat first [done|constructor]|].
  destruct (formatted_array p v0 v1 v2 v3 c m y k Hc Hm Hy Hk)
    as (h' & Hf & Hvals).
  unfold rgbChanged. cbv zeta.
  rewrite (rgb2cmyk_channel_value _ _ _ r g b), Hv by done.
  rewrite (rgb2hex_channel_value _ _ _ _ r g b) by done.
  rewrite (channel_value_to_string _ r Hr Vr), (channel_value_to_string _ g Hg Vg),
    (channel_value_to_string _ b Hb Vb).
  unfold new_Array. cbn [fmap list_fmap].
  cbv zeta in Hf. rewrite Hf. cbn [mbind res_bind]. rewrite Hvals.
  cbn [mbind res_bind]. by rewrite updateColorDemo_shown.
Qed.

(** ** The sign of the number of a string *)

Lemma sf_nonneg_round_aux m e l :
  sf_nonneg (binary_round_aux prec emax false m e l) = true.
Proof.
  unfold binary_round_aux.
  destruct (shr_fexp prec emax m e l) as [mrs' e'].
  destruct (shr_fexp prec emax _ e' loc_Exact) as [mrs'' e''].
  destruct (shr_m mrs''); try done. by destruct (_ <=? _).
Qed.

Lemma sf_nonneg_round m e : sf_nonneg (binary_round prec emax false m e) = true.
Proof.
  unfold binary_round. destruct (shl_align m e _).
  apply sf_nonneg_round_aux.
Qed.

Lemma sf_nonneg_of_uint63 n : sf_nonneg (Prim2SF (of_uint63 n)) = true.
Proof.
  rewrite FloatAxioms.of_uint63_spec.
  pose proof (Uint63.to_Z_bounded n) as [H _].
  destruct (Uint63Axioms.to_Z n); [done|apply sf_nonneg_round|lia].
Qed.

Lemma sf_nonneg_ldexp f e :
  sf_nonneg (Prim2SF f) = true → sf_nonneg (Prim2SF (Z.ldexp f e)) = true.
Proof.
  rewrite FloatLemmas.Z_ldexp_spec. unfold SFldexp.
  destruct (Prim2SF f) as [s|s| |s m e']; try done.
  destruct s; [done|]. intros _. apply sf_nonneg_round.
Qed.

Lemma sf_nonneg_SF2Prim x :
  sf_nonneg x = true → sf_nonneg (Prim2SF (SF2Prim x)) = true.
Proof.
  destruct x as [[]|[]| |[] m e]; try done. intros _.
  apply sf_nonneg_ldexp, sf_nonneg_of_uint63.
Qed.

Lemma sf_nonneg_of_Z z : 0 <= z → sf_nonneg (Prim2SF (of_Z z)) = true.
Proof.
  intros Hz. destruct z as [|p|p]; [done| |lia].
  unfold of_Z, of_pos. destruct (_ <? _).
  - apply sf_nonneg_of_uint63.
  - apply sf_nonneg_SF2Prim, sf_nonneg_round.
Qed.

Lemma sf_nonneg_decimal_number n k :
  sf_nonneg (Prim2SF (decimal_number n k)) = true.
Proof.
  unfold decimal_number. destruct n as [|p|p]; try done.
  destruct k as [|q|q].
  - apply sf_nonneg_of_Z. lia.
  - apply sf_nonneg_of_Z. lia.
  - destruct (SFdiv_core_binary _ _ _ _ _ _) as [[m e] l].
    apply sf_nonneg_SF2Prim, sf_nonneg_round_aux.
Qed.

(** A number that is not negative is not -1. *)
Lemma sf_nonneg_not_minus_one x :
  sf_nonneg (Prim2SF x) = true → (x =? -1)%float = false.
Proof.
  rewrite FloatAxioms.eqb_spec.
  change (Prim2SF (-1)) with (S754_finite true 4503599627370496 (-52)).
  by destruct (Prim2SF x) as [[]|[]| |[] m e].
Qed.

Lemma skip_white_last l c :
  is_white c = false → ∃ l', skip_white (l ++ [c]) = l' ++ [c].
Proof.
  intros Hc. induction l as [|a l IH]; simpl.
  - rewrite Hc. by exists [].
  - destruct (is_white a); [done|]. by exists (a :: l).
Qed.

Lemma trim_head c s :
  is_white c = false → ∃ s', trim (c :: s) = c :: s'.
Proof.
  intros Hc. unfold trim. cbn [skip_white]. rewrite Hc.
  rewrite reverse_cons.
  destruct (skip_white_last (reverse s) c Hc) as [l' ->].
  rewrite reverse_app. by exists (reverse l').
Qed.

(** The number of a string that starts with neither white space nor a
    minus sign is not negative. *)
Lemma to_number_nonneg c s :
  is_white c = false → c ≠ 45%N →
  sf_nonneg (Prim2SF (to_number (c :: s))) = true.
Proof.
  intros Hw Hc. unfold to_number.
  destruct (trim_head c s Hw) as [s' ->].
  destruct (radix_prefix (c :: s')) as [[radix r]|] eqn:Er.
  - destruct (_ && _); [|done]. apply sf_nonneg_of_Z.
    apply digits_value_nonneg; [|apply digits_prefix_nonneg].
    unfold radix_prefix in Er. destruct s' as [|c' s'']; [done|].
    destruct (negb _); [done|].
    repeat (destruct (_ || _) in Er; [injection Er as <- _; lia|]).
    done.
  - unfold signed_decimal, sign_part.
    apply N.eqb_neq in Hc. rewrite Hc.
    assert (∀ s0 : jsstring,
              sf_nonneg (Prim2SF
                match (let r := if eqb (take 8 s0) (str "Infinity")
                                then Some (infinity, drop 8 s0)
                                else match unsigned_decimal s0 with
                                     | Some (n, k, rest) =>
                                         Some (decimal_number n k, rest)
                                     | None => None
                                     end in
                       match r with
                       | Some (x, rest) => Some (x, rest)
                       | None => None
                       end) with
                | Some (x, []) => x
                | _ => nan
                end) = true) as H.
    { intros s0. cbv zeta. destruct (eqb _ _).
      - by destruct (drop 8 s0).
      - destruct (unsigned_decimal s0) as [[[n k] rest]|]; [|done].
        destruct rest; [|done]. apply sf_nonneg_decimal_number. }
    destruct (c =? 43)%N; apply H.
Qed.

(** ** The HEX handler *)

Lemma in_class_not_white c :
  in_class c = true → is_white c = false ∧ c ≠ 45%N.
Proof.
  intros H. pose proof (in_class_digit c H) as [Hv _].
  unfold upper_hex_value in Hv.
  assert (48 <= c <= 70)%N as Hc by (destruct (c <=? 57)%N eqn:E; lia).
  split; [|lia].
  destruct (is_white c) eqn:E; [exfalso|done]. unfold is_white in E.
  rewrite !orb_true_iff, !andb_true_iff, !N.leb_le, !N.eqb_eq in E. lia.
Qed.

Lemma loose_eq_class c h :
  in_class c = true → loose_eq (VStr (c :: h)) HEX_NOT_VALID = false.
Proof.
  intros Hc. destruct (in_class_not_white c Hc) as [Hw Hm].
  unfold loose_eq, HEX_NOT_VALID.
  by apply sf_nonneg_not_minus_one, to_number_nonneg.
Qed.

Lemma upper_hex_digit_class d :
  0 <= d <= 15 → in_class (upper_hex_digit d) = true.
Proof.
  intros Hd.
  apply (all_below_spec 16 (λ d, in_class (upper_hex_digit d)));
    [reflexivity|lia].
Qed.

Lemma two_hex_digits_class n :
  channel n → forallb in_class (two_hex_digits n) = true.
Proof.
  intros Hn. unfold two_hex_digits, channel in *. cbn [forallb].
  rewrite !upper_hex_digit_class; [done|..];
    Z.to_euclidean_division_equations; lia.
Qed.

Lemma hex_digits_class r g b :
  channel r → channel g → channel b →
  forallb in_class (hex_digits r g b) = true.
Proof.
  intros Hr Hg Hb. unfold hex_digits. rewrite !forallb_app.
  by rewrite !two_hex_digits_class.
Qed.

(** A string of six units of the class is valid as it is, and with [#]
    before it. *)
Lemma makeValidHex_class h :
  length h = 6%nat → forallb in_class h = true →
  makeValidHex h = VStr h ∧ makeValidHex (35%N :: h) = VStr h.
Proof.
  intros Hlen Hclass.
  destruct h as [|h1 [|h2 [|h3 [|h4 [|h5 [|h6 [|h7 l]]]]]]]; try done.
  pose proof Hclass as Hall.
  cbn [forallb] in Hclass. rewrite !andb_true_iff in Hclass.
  destruct Hclass as (H1 & H2 & H3 & H4 & H5 & H6 & _).
  destruct (in_class_facts h1 H1) as [U1 Hsharp].
  destruct (in_class_facts h2 H2) as [U2 _].
  destruct (in_class_facts h3 H3) as [U3 _].
  destruct (in_class_facts h4 H4) as [U4 _].
  destruct (in_class_facts h5 H5) as [U5 _].
  destruct (in_class_facts h6 H6) as [U6 _].
  assert (toUpperCase [h1; h2; h3; h4; h5; h6] = [h1; h2; h3; h4; h5; h6])
    as Hup
    by (unfold toUpperCase; cbn [flat_map]; by rewrite U1, U2, U3, U4, U5, U6).
  rewrite !makeValidHex_cleaned.
  assert (cleaned [h1; h2; h3; h4; h5; h6] = [h1; h2; h3; h4; h5; h6]) as ->.
  { unfold cleaned. cbn [charAt Z.ltb Z.compare Z.to_nat lookup list_lookup].
    unfold eqb. rewrite bool_decide_eq_false_2; [done|].
    intros E. apply (f_equal head) in E. vm_compute in E. congruence. }
  assert (cleaned (35%N :: [h1; h2; h3; h4; h5; h6])
          = [h1; h2; h3; h4; h5; h6]) as -> by reflexivity.
  cbv zeta. cbn [length Nat.eqb negb andb stretched].
  rewrite Hup, regExp_test_six, Hall. done.
Qed.

Lemma hex2rgb_hex_digits r g b :
  channel r → channel g → channel b →
  hex2rgb (hex_digits r g b) = [of_Z r; of_Z g; of_Z b].
Proof.
  intros Hr Hg Hb.
  change (hex2rgb (hex_digits r g b))
    with [parseInt (two_hex_digits r) 16; parseInt (two_hex_digits g) 16;
          parseInt (two_hex_digits b) 16].
  by rewrite !parseInt_two_hex_digits.
Qed.

Lemma class_hex_digits h :
  length h = 6%nat → forallb in_class h = true →
  ∃ r g b, channel r ∧ channel g ∧ channel b ∧ h = hex_digits r g b.
Proof.
  intros Hlen Hclass.
  destruct h as [|a1 [|a2 [|a3 [|a4 [|a5 [|a6 [|a7 l]]]]]]]; try done.
  cbn [forallb] in Hclass. rewrite !andb_true_iff in Hclass.
  destruct Hclass as (H1 & H2 & H3 & H4 & H5 & H6 & _).
  destruct (in_class_pair a1 a2 H1 H2) as (r & Hr & Er).
  destruct (in_class_pair a3 a4 H3 H4) as (g & Hg & Eg).
  destruct (in_class_pair a5 a6 H5 H6) as (b & Hb & Eb).
  exists r, g, b. split; [done|]. split; [done|]. split; [done|].
  unfold hex_digits. by rewrite <- Er, <- Eg, <- Eb.
Qed.

Lemma hexChanged_spec p d r g b :
  channel r → channel g → channel b →
  makeValidHex (hex d) = VStr (hex_digits r g b) →
  ∃ c m y k,
    Forall2 (format_of p) (rgb2cmyk (of_Z r) (of_Z g) (of_Z b)) [c; m; y; k]
    ∧ hexChanged p d = Ok (ReturnsUndefined, shows p d r g b c m y k).
Proof.
  intros Hr Hg Hb Hvalid.
  destruct (rgb2cmyk_unit r g b Hr Hg Hb)
    as (v0 & v1 & v2 & v3 & Hv & U0 & U1 & U2 & U3).
  destruct (format_of_unit p v0 U0) as [c Hc].
  destruct (format_of_unit p v1 U1) as [m Hm].
  destruct (format_of_unit p v2 U2) as [y Hy].
  destruct (format_of_unit p v3 U3) as [k Hk].
  exists c, m, y, k. rewrite Hv. split; [by repeat first [done|constructor]|].
  destruct (formatted_array p v0 v1 v2 v3 c m y k Hc Hm Hy Hk)
    as (h' & Hf & Hvals).
  unfold hexChanged. cbv zeta. rewrite Hvalid.
  assert (loose_eq (VStr (hex_digits r g b)) HEX_NOT_VALID = false) as ->.
  { pose proof (hex_digits_class r g b Hr Hg Hb) as Hcl.
    unfold hex_digits, two_hex_digits in *. cbn [app forallb] in *.
    apply andb_true_iff in Hcl as [Hcl _]. by apply loose_eq_class. }
  rewrite hex2rgb_hex_digits by done.
  cbn [item lookup list_lookup mbind res_bind].
  rewrite Hv. unfold new_Array. cbn [fmap list_fmap].
  cbv zeta in Hf. rewrite Hf. cbn [mbind res_bind].
  destruct (valid_channel r Hr) as (_ & _ & _ & Vr).
  destruct (valid_channel g Hg) as (_ & _ & _ & Vg).
  destruct (valid_channel b Hb) as (_ & _ & _ & Vb).
  rewrite (channel_value_to_string _ r Hr Vr),
    (channel_value_to_string _ g Hg Vg), (channel_value_to_string _ b Hb Vb).
  cbn [mbind res_bind]. rewrite Hvals. cbn [mbind res_bind].
  change (if eqb (isHexSharp p) (str "true")
          then str "#" ++ hex_digits r g b else hex_digits r g b)
    with (shown_hex p (hex_digits r g b)).
  by rewrite updateColorDemo_shown.
Qed.

(** On ASCII input a string that [makeValidHex] returns is the six
    digits of three channels. *)
Lemma makeValidHex_ascii_digits value h :
  forallb ascii_unit value = true → makeValidHex value = VStr h →
  h = upper_ascii <$> stretched (cleaned value)
  ∧ ∃ r g b, channel r ∧ channel g ∧ channel b ∧ h = hex_digits r g b.
Proof.
  intros Hascii Hh. pose proof (makeValidHex_result value h Hh) as Hre.
  destruct (makeValidHex_ascii_cases value Hascii) as [_ Hvalid].
  destruct Hvalid as [Heq Hlen]; [by rewrite Hh|].
  rewrite Hh in Heq. injection Heq as Heq. rewrite <- Heq in Hlen.
  split; [done|]. apply class_hex_digits; [done|].
  destruct h as [|h1 [|h2 [|h3 [|h4 [|h5 [|h6 [|h7 l]]]]]]]; try done.
  by rewrite <- regExp_test_six.
Qed.

(** ** The RGB and the HEX handler *)

Lemma format_of_unique p vs ss ts :
  Forall2 (format_of p) vs ss → Forall2 (format_of p) vs ts → ss = ts.
Proof.
  intros H. revert ts. induction H as [|v s vs ss Hs _ IH]; intros ts Ht.
  - by apply Forall2_nil_inv_l in Ht.
  - apply Forall2_cons_inv_l in Ht as (t & ts' & Hv & Hrest & ->).
    f_equal; [by apply (format_of_inj p v)|by apply IH].
Qed.

Lemma format_of_formatted p vs ss :
  Forall2 (format_of p) vs ss → Forall2 (formatted p) vs ss.
Proof. intros H. eapply Forall2_impl; [done|]. by intros v s [_ ?]. Qed.

Lemma shows_shows p d r g b c m y k r' g' b' c' m' y' k' :
  shows p (shows p d r g b c m y k) r' g' b' c' m' y' k'
  = shows p d r' g' b' c' m' y' k'.
Proof. reflexivity. Qed.

(** The page that [rgbChanged] leaves, from the page it finds. *)
Lemma rgbChanged_result p d :
  ∃ r g b c m y k,
    (channel r ∧ channel g ∧ channel b)
    ∧ (channel_value (makeValidRgb (parseInt (rgb_R d) 10)) r
       ∧ channel_value (makeValidRgb (parseInt (rgb_G d) 10)) g
       ∧ channel_value (makeValidRgb (parseInt (rgb_B d) 10)) b)
    ∧ Forall2 (format_of p) (rgb2cmyk (of_Z r) (of_Z g) (of_Z b)) [c; m; y; k]
    ∧ rgbChanged p d = Ok (shows p d r g b c m y k).
Proof.
  destruct (validated_channel (rgb_R d)) as (r & Hr & Vr).
  destruct (validated_channel (rgb_G d)) as (g & Hg & Vg).
  destruct (validated_channel (rgb_B d)) as (b & Hb & Vb).
  destruct (rgbChanged_spec p d r g b Hr Hg Hb Vr Vg Vb)
    as (c & m & y & k & Hf & Hd).
  by exists r, g, b, c, m, y, k.
Qed.

(** Whatever the three RGB inputs hold, [rgbChanged] ends without an
    error and leaves a page that shows three channels, integers from 0 to
    255 read from the inputs ([parseInt], then [makeValidRgb]): the RGB
    inputs hold their decimal digits, the HEX input their six hexadecimal
    digits, the CMYK inputs the formatted components of [rgb2cmyk], and
    the colour of the demo area is the HEX string. *)
Theorem rgbChanged_shows (p : prefs) (d : page) :
  ∃ r g b c m y k,
    (channel r ∧ channel g ∧ channel b)
    ∧ (channel_value (makeValidRgb (parseInt (rgb_R d) 10)) r
       ∧ channel_value (makeValidRgb (parseInt (rgb_G d) 10)) g
       ∧ channel_value (makeValidRgb (parseInt (rgb_B d) 10)) b)
    ∧ Forall2 (formatted p) (rgb2cmyk (of_Z r) (of_Z g) (of_Z b)) [c; m; y; k]
    ∧ rgbChanged p d = Ok (shows p d r g b c m y k).
Proof.
  destruct (rgbChanged_result p d)
    as (r & g & b & c & m & y & k & Hc & Hv & Hf & Hd).
  exists r, g, b, c, m, y, k. by auto using format_of_formatted.
Qed.

Lemma hex_digits_length r g b : length (hex_digits r g b) = 6%nat.
Proof. reflexivity. Qed.

Lemma makeValidHex_shown p r g b :
  channel r → channel g → channel b →
  makeValidHex (shown_hex p (hex_digits r g b)) = VStr (hex_digits r g b).
Proof.
  intros Hr Hg Hb.
  destruct (makeValidHex_class (hex_digits r g b) (hex_digits_length r g b)
              (hex_digits_class r g b Hr Hg Hb)) as [H1 H2].
  unfold shown_hex. by destruct (eqb _ _).
Qed.

(** A page that shows three channels and the components of [rgb2cmyk] is
    left as it is by [hexChanged] and by [rgbChanged]. *)
Lemma shows_settled p d r g b c m y k :
  channel r → channel g → channel b →
  Forall2 (format_of p) (rgb2cmyk (of_Z r) (of_Z g) (of_Z b)) [c; m; y; k] →
  let d' := shows p d r g b c m y k in
  rgbChanged p d' = Ok d' ∧ hexChanged p d' = Ok (ReturnsUndefined, d').
Proof.
  intros Hr Hg Hb Hf d'. split.
  - destruct (valid_channel r Hr) as (Vr1 & Vr2 & _ & Vr).
    destruct (valid_channel g Hg) as (Vg1 & Vg2 & _ & Vg).
    destruct (valid_channel b Hb) as (Vb1 & Vb2 & _ & Vb).
    destruct (rgbChanged_spec p d' r g b Hr Hg Hb)
      as (c' & m' & y' & k' & Hf' & ->).
    + unfold d'. cbn [shows rgb_R]. by rewrite Vr2, Vr1.
    + unfold d'. cbn [shows rgb_G]. by rewrite Vg2, Vg1.
    + unfold d'. cbn [shows rgb_B]. by rewrite Vb2, Vb1.
    + unfold d'. rewrite shows_shows.
      pose proof (format_of_unique _ _ _ _ Hf Hf') as [= <- <- <- <-]. done.
  - destruct (hexChanged_spec p d' r g b Hr Hg Hb)
      as (c' & m' & y' & k' & Hf' & ->).
    + unfold d'. cbn [shows hex]. by apply makeValidHex_shown.
    + unfold d'. rewrite shows_shows.
      pose proof (format_of_unique _ _ _ _ Hf Hf') as [= <- <- <- <-]. done.
Qed.

(** [rgbChanged] is idempotent: run on the page that it has left, it
    leaves the same page. *)
Theorem rgbChanged_idempotent (p : prefs) (d d' : page) :
  rgbChanged p d = Ok d' → rgbChanged p d' = Ok d'.
Proof.
  destruct (rgbChanged_result p d)
    as (r & g & b & c & m & y & k & (Hr & Hg & Hb) & _ & Hf & ->).
  intros [= <-]. by apply shows_settled.
Qed.

Lemma rgbChanged_idempotent_witness :
  rgbChanged initial_prefs example_shown = Ok example_shown.
Proof.
  exact (rgbChanged_idempotent initial_prefs example_page example_shown
           ltac:(vm_compute; reflexivity)).
Defined.

(** After [rgbChanged] the inputs agree: [hexChanged], run on the page
    that [rgbChanged] has left, reads the same colour from the HEX input
    and leaves the page as it is. *)
Theorem hexChanged_after_rgbChanged (p : prefs) (d d' : page) :
  rgbChanged p d = Ok d' → hexChanged p d' = Ok (ReturnsUndefined, d').
Proof.
  destruct (rgbChanged_result p d)
    as (r & g & b & c & m & y & k & (Hr & Hg & Hb) & _ & Hf & ->).
  intros [= <-]. by apply shows_settled.
Qed.

Lemma hexChanged_after_rgbChanged_witness :
  hexChanged initial_prefs example_shown = Ok (ReturnsUndefined, example_shown).
Proof.
  exact (hexChanged_after_rgbChanged initial_prefs example_page example_shown
           ltac:(vm_compute; reflexivity)).
Defined.

(** On an ASCII input that is not a HEX string (the string without
    its [#], cut to six units, has neither three nor six units, or one of
    them is no hexadecimal digit) [hexChanged] shows its message and
    returns [false], and no input and no colour of the page changes. *)
Theorem hexChanged_rejects (p : prefs) (d : page) :
  forallb ascii_unit (hex d) = true →
  (length (cleaned (hex d)) ≠ 3%nat ∧ length (cleaned (hex d)) ≠ 6%nat)
  ∨ forallb hex_unit (cleaned (hex d)) = false →
  hexChanged p d = Ok (ReturnsFalse, alert hex_message d).
Proof.
  intros Hascii Hbad.
  destruct (makeValidHex_ascii_cases (hex d) Hascii) as [Hiff _].
  apply Hiff in Hbad. unfold hexChanged. cbv zeta. by rewrite Hbad.
Qed.

Lemma hexChanged_rejects_witness :
  hexChanged initial_prefs rejected_page
  = Ok (ReturnsFalse, alert hex_message rejected_page).
Proof.
  exact (hexChanged_rejects initial_prefs rejected_page eq_refl
           (or_intror
              (eq_refl : forallb hex_unit (cleaned (hex rejected_page)) = false))).
Defined.

(** On an ASCII input that is a HEX string, of three or six
    hexadecimal digits with or without [#], [hexChanged] leaves a page that
    shows the three channels of the string: the RGB inputs hold their
    decimal digits, the HEX input the six digits in upper case, the CMYK
    inputs the formatted components of [rgb2cmyk]; no message is shown. *)
Theorem hexChanged_shows (p : prefs) (d : page) :
  forallb ascii_unit (hex d) = true →
  length (cleaned (hex d)) = 3%nat ∨ length (cleaned (hex d)) = 6%nat →
  forallb hex_unit (cleaned (hex d)) = true →
  ∃ r g b c m y k,
    (channel r ∧ channel g ∧ channel b)
    ∧ upper_ascii <$> stretched (cleaned (hex d)) = hex_digits r g b
    ∧ Forall2 (formatted p) (rgb2cmyk (of_Z r) (of_Z g) (of_Z b)) [c; m; y; k]
    ∧ hexChanged p d = Ok (ReturnsUndefined, shows p d r g b c m y k).
Proof.
  intros Hascii Hlen Hhex.
  destruct (makeValidHex_ascii_cases (hex d) Hascii) as [Hiff Hvalid].
  destruct Hvalid as [Hv _].
  { intros Hbad. apply Hiff in Hbad as [[? ?]|Hbad]; [lia|congruence]. }
  destruct (makeValidHex_ascii_digits _ _ Hascii Hv)
    as (_ & r & g & b & Hr & Hg & Hb & Heq).
  rewrite Heq in Hv.
  destruct (hexChanged_spec p d r g b Hr Hg Hb Hv)
    as (c & m & y & k & Hf & Hd).
  exists r, g, b, c, m, y, k. by auto using format_of_formatted.
Qed.

Lemma hexChanged_shows_witness :
  ∃ r g b c m y k,
    (channel r ∧ channel g ∧ channel b)
    ∧ upper_ascii <$> stretched (cleaned (hex example_page)) = hex_digits r g b
    ∧ Forall2 (formatted initial_prefs)
        (rgb2cmyk (of_Z r) (of_Z g) (of_Z b)) [c; m; y; k]
    ∧ hexChanged initial_prefs example_page
      = Ok (ReturnsUndefined, shows initial_prefs example_page r g b c m y k).
Proof.
  exact (hexChanged_shows initial_prefs example_page eq_refl
           (or_intror (eq_refl : length (cleaned (hex example_page)) = 6%nat))
           eq_refl).
Defined.

(** After [hexChanged] has accepted an ASCII input the inputs agree:
    [hexChanged] and [rgbChanged], run on the page that it has left, leave
    the page as it is. *)
Theorem hexChanged_settles (p : prefs) (d d' : page) :
  forallb ascii_unit (hex d) = true →
  hexChanged p d = Ok (ReturnsUndefined, d') →
  hexChanged p d' = Ok (ReturnsUndefined, d') ∧ rgbChanged p d' = Ok d'.
Proof.
  intros Hascii Hd.
  destruct (makeValidHex (hex d)) as [x|h] eqn:Hv.
  - unfold hexChanged in Hd. cbv zeta in Hd. rewrite Hv in Hd.
    by destruct (loose_eq _ _).
  - destruct (makeValidHex_ascii_digits _ _ Hascii Hv)
      as (_ & r & g & b & Hr & Hg & Hb & ->).
    destruct (hexChanged_spec p d r g b Hr Hg Hb Hv)
      as (c & m & y & k & Hf & Hd').
    rewrite Hd' in Hd. injection Hd as <-.
    destruct (shows_settled p d r g b c m y k Hr Hg Hb Hf) as [H1 H2].
    done.
Qed.

Lemma hexChanged_settles_witness :
  let d' := shows initial_prefs example_page 26 43 60
              (str "0.567") (str "0.283") (str "0.000") (str "0.765") in
  hexChanged initial_prefs d' = Ok (ReturnsUndefined, d')
  ∧ rgbChanged initial_prefs d' = Ok d'.
Proof.
  exact (hexChanged_settles initial_prefs example_page _
           ltac:(vm_compute; reflexivity) ltac:(vm_compute; reflexivity)).
Defined.

(** ** The CMYK handler *)

Lemma makeValidCmyk_unit v : unit_range (makeValidCmyk v) = true.
Proof.
  unfold makeValidCmyk, isNaN.
  destruct (is_nan v) eqn:Hnan; [reflexivity|].
  destruct (v <? 0)%float eqn:Hneg; [reflexivity|].
  destruct (1 <? v)%float eqn:Hbig; [reflexivity|]. simpl.
  apply andb_true_iff. split; by apply not_ltb_leb.
Qed.

Lemma rgb_component_channel_value c k :
  unit_range c = true → unit_range k = true →
  ∃ n, channel n ∧ channel_value (rgb_component c k) n
       ∧ (Rabs (IZR n - mix (fval c) (fval k)) <= / 2 + / 1000000)%R.
Proof.
  intros Hc Hk. unfold rgb_component.
  destruct (rgb_component_R c k Hc Hk) as [Fu Vu]. apply Rabs_le_inv in Vu.
  pose proof (mix_range _ _ (proj2 (unit_range_R c Hc))
                (proj2 (unit_range_R k Hk))) as Hmix.
  destruct (Math_round_range _ 255 ltac:(lia) Fu ltac:(lra))
    as (n & Hn & Hnear & Hres).
  exists n. split; [done|]. split; [done|]. apply Rabs_le. lra.
Qed.

Lemma cmykChanged_spec p d :
  let fC := makeValidCmyk (read_cmyk p (cmyk_C d)) in
  let fM := makeValidCmyk (read_cmyk p (cmyk_M d)) in
  let fY := makeValidCmyk (read_cmyk p (cmyk_Y d)) in
  let fK := makeValidCmyk (read_cmyk p (cmyk_K d)) in
  ∃ r g b c m y k,
    (channel r ∧ channel g ∧ channel b)
    ∧ (channel_value (rgb_component fC fK) r
       ∧ channel_value (rgb_component fM fK) g
       ∧ channel_value (rgb_component fY fK) b)
    ∧ (Rabs (IZR r - mix (fval fC) (fval fK)) <= / 2 + / 1000000
       ∧ Rabs (IZR g - mix (fval fM) (fval fK)) <= / 2 + / 1000000
       ∧ Rabs (IZR b - mix (fval fY) (fval fK)) <= / 2 + / 1000000)%R
    ∧ Forall2 (format_of p) [fC; fM; fY; fK] [c; m; y; k]
    ∧ cmykChanged p d = Ok (shows p d r g b c m y k).
Proof.
  intros fC fM fY fK.
  pose proof (makeValidCmyk_unit (read_cmyk p (cmyk_C d))) as UC.
  pose proof (makeValidCmyk_unit (read_cmyk p (cmyk_M d))) as UM.
  pose proof (makeValidCmyk_unit (read_cmyk p (cmyk_Y d))) as UY.
  pose proof (makeValidCmyk_unit (read_cmyk p (cmyk_K d))) as UK.
  fold fC in UC. fold fM in UM. fold fY in UY. fold fK in UK.
  destruct (rgb_component_channel_value fC fK UC UK) as (r & Hr & Vr & Nr).
  destruct (rgb_component_channel_value fM fK UM UK) as (g & Hg & Vg & Ng).
  destruct (rgb_component_channel_value fY fK UY UK) as (b & Hb & Vb & Nb).
  destruct (format_of_unit p fC UC) as [c Hc].
  destruct (format_of_unit p fM UM) as [m Hm].
  destruct (format_of_unit p fY UY) as [y Hy].
  destruct (format_of_unit p fK UK) as [k Hk].
  exists r, g, b, c, m, y, k.
  split; [done|]. split; [done|]. split; [done|].
  split; [by repeat first [done|constructor]|].
  destruct (formatted_array p fC fM fY fK c m y k Hc Hm Hy Hk)
    as (h' & Hf & Hvals).
  unfold cmykChanged. cbv zeta. fold fC fM fY fK.
  change (cmyk2rgb fC fM fY fK)
    with [rgb_component fC fK; rgb_component fM fK; rgb_component fY fK].
  cbn [item lookup list_lookup mbind res_bind].
  rewrite (rgb2hex_channel_value _ _ _ _ r g b) by done.
  rewrite (channel_value_to_string _ r Hr Vr),
    (channel_value_to_string _ g Hg Vg), (channel_value_to_string _ b Hb Vb).
  cbn [mbind res_bind]. unfold new_Array.
  cbv zeta in Hf. rewrite Hf. cbn [mbind res_bind]. rewrite Hvals.
  cbn [mbind res_bind]. by rewrite updateColorDemo_shown.
Qed.

(** Whatever the four CMYK inputs hold, [cmykChanged] ends without an
    error.  The values read from the inputs are brought into [0,1] by
    [makeValidCmyk]; the page left shows them formatted in the CMYK
    inputs, and three channels, integers from 0 to 255, each the real
    number [255 * (1 - (c * (1 - k) + k))] rounded, in the RGB inputs, the
    HEX input and the colour of the demo area. *)
Theorem cmykChanged_shows (p : prefs) (d : page) :
  let fC := makeValidCmyk (read_cmyk p (cmyk_C d)) in
  let fM := makeValidCmyk (read_cmyk p (cmyk_M d)) in
  let fY := makeValidCmyk (read_cmyk p (cmyk_Y d)) in
  let fK := makeValidCmyk (read_cmyk p (cmyk_K d)) in
  ∃ r g b c m y k,
    (channel r ∧ channel g ∧ channel b)
    ∧ (Rabs (IZR r - mix (fval fC) (fval fK)) <= / 2 + / 1000000
       ∧ Rabs (IZR g - mix (fval fM) (fval fK)) <= / 2 + / 1000000
       ∧ Rabs (IZR b - mix (fval fY) (fval fK)) <= / 2 + / 1000000)%R
    ∧ Forall2 (formatted p) [fC; fM; fY; fK] [c; m; y; k]
    ∧ cmykChanged p d = Ok (shows p d r g b c m y k).
Proof.
  intros fC fM fY fK.
  destruct (cmykChanged_spec p d)
    as (r & g & b & c & m & y & k & Hc & _ & Hn & Hf & Hd).
  exists r, g, b, c, m, y, k. by auto using format_of_formatted.
Qed.

(** ** The preferences *)

Lemma keys_differ : HEX_SHARP_KEY ≠ CMYK_PERCENT_KEY.
Proof. intros H. apply (f_equal head) in H. by vm_compute in H. Qed.

(** The global variables hold what the storage holds. *)
Lemma reachable_stored s :
  reachable s →
  isHexSharp (globals s) = stored (localStorage s) HEX_SHARP_KEY
  ∧ isCMYKPercent (globals s) = stored (localStorage s) CMYK_PERCENT_KEY.
Proof.
  induction 1 as [st d|s e d s' Hs [IH1 IH2] He].
  - unfold loaded, ready, stored.
    cbn [globals localStorage isHexSharp isCMYKPercent].
    by destruct (st !! HEX_SHARP_KEY), (st !! CMYK_PERCENT_KEY).
  - pose proof keys_differ as Hk.
    destruct e; cbn [handle globals localStorage window] in He.
    + destruct (rgbChanged _ _); [|done]. by injection He as <-.
    + destruct (cmykChanged _ _); [|done]. by injection He as <-.
    + destruct (hexChanged _ _) as [[? ?]|]; [|done]. by injection He as <-.
    + injection He as <-. unfold hex_sharp_changed, stored.
      cbn [globals localStorage window isHexSharp isCMYKPercent].
      rewrite lookup_insert_eq, lookup_insert_ne by done. done.
    + injection He as <-. unfold cmyk_percent_changed, stored.
      cbn [globals localStorage window isHexSharp isCMYKPercent].
      rewrite lookup_insert_eq, lookup_insert_ne by done. done.
Qed.

(** The preferences persist.  In every state that the application
    can reach, the two global variables hold what the local storage holds
    (["false"] for a key that it lacks), so that loading the application
    again, on whatever page, restores them. *)
Theorem preferences_persist (s : state) (d : page) :
  reachable s →
  (isHexSharp (globals s) = stored (localStorage s) HEX_SHARP_KEY
   ∧ isCMYKPercent (globals s) = stored (localStorage s) CMYK_PERCENT_KEY)
  ∧ globals (loaded (localStorage s) d) = globals s.
Proof.
  intros Hs. split; [by apply reachable_stored|].
  destruct (reachable_stored s Hs) as [H1 H2].
  destruct (globals s) as [sharp percent].
  cbn [isHexSharp isCMYKPercent] in H1, H2. subst.
  unfold loaded, ready, stored.
  cbn [globals localStorage isHexSharp isCMYKPercent].
  by destruct (localStorage s !! HEX_SHARP_KEY),
              (localStorage s !! CMYK_PERCENT_KEY).
Qed.

Lemma preferences_persist_witness :
  globals (loaded (localStorage example_state_sharp) example_page)
  = globals example_state_sharp.
Proof.
  exact (proj2 (preferences_persist example_state_sharp example_page
                  (reachable_event example_state hex_sharp_change
                     (switched true false example_page) example_state_sharp
                     (reachable_ready ∅ example_page) eq_refl))).
Defined.

(** A change of a switch of the option menu is stored, and restored
    at the next load.  The handler of a switch sets its global variable to
    ["true"] or ["false"] as the switch is checked or not, and stores the
    value under its key; the other variable and the other key are left as
    they are.  The application loaded again with this storage, on a page
    with both switches off, has the variable at the same value, and the
    switch checked if it was. *)
Theorem switches_restored (s : state) (d : page) :
  hex_sharp d = false → cmyk_percent d = false →
  (let s1 := hex_sharp_changed s in
   let s2 := loaded (localStorage s1) d in
   isHexSharp (globals s1)
     = (if hex_sharp (window s) then str "true" else str "false")
   ∧ isCMYKPercent (globals s1) = isCMYKPercent (globals s)
   ∧ localStorage s1 !! CMYK_PERCENT_KEY = localStorage s !! CMYK_PERCENT_KEY
   ∧ isHexSharp (globals s2) = isHexSharp (globals s1)
   ∧ hex_sharp (window s2) = hex_sharp (window s))
  ∧ (let s1 := cmyk_percent_changed s in
     let s2 := loaded (localStorage s1) d in
     isCMYKPercent (globals s1)
       = (if cmyk_percent (window s) then str "true" else str "false")
     ∧ isHexSharp (globals s1) = isHexSharp (globals s)
     ∧ localStorage s1 !! HEX_SHARP_KEY = localStorage s !! HEX_SHARP_KEY
     ∧ isCMYKPercent (globals s2) = isCMYKPercent (globals s1)
     ∧ cmyk_percent (window s2) = cmyk_percent (window s)).
Proof.
  intros Hd1 Hd2. pose proof keys_differ as Hk. split.
  - intros s1 s2. unfold s2, s1, loaded, ready, hex_sharp_changed.
    cbn [globals localStorage window isHexSharp isCMYKPercent hex_sharp].
    rewrite lookup_insert_eq, lookup_insert_ne by done.
    repeat split. rewrite Hd1. by destruct (hex_sharp (window s)).
  - intros s1 s2. unfold s2, s1, loaded, ready, cmyk_percent_changed.
    cbn [globals localStorage window isHexSharp isCMYKPercent cmyk_percent].
    rewrite lookup_insert_eq, lookup_insert_ne by done.
    repeat split. rewrite Hd2. by destruct (cmyk_percent (window s)).
Qed.

Lemma switches_restored_witness :
  let s1 := hex_sharp_changed example_state_sharp in
  let s2 := loaded (localStorage s1) example_page in
  isHexSharp (globals s2) = isHexSharp (globals s1)
  ∧ hex_sharp (window s2) = hex_sharp (window example_state_sharp).
Proof.
  exact (proj2 (proj2 (proj2 (proj1
           (switches_restored example_state_sharp example_page
              eq_refl eq_refl))))).
Defined.

(** ** More on the converters *)

Lemma largest_table_ok : all_below 256 largest_check = true.
Proof. vm_cast_no_check (eq_refl true). Qed.

Lemma largest_component m :
  channel m → cmyk_component (of_Z m) (cmy m) = 0%float.
Proof.
  intros Hm. apply feqb_eq. change (largest_check m = true).
  apply (all_below_spec 256 largest_check);
    auto using largest_table_ok, channel_below.
Qed.

(** For channels from 0 to 255, the black component of [rgb2cmyk] is
    [1 - max / 255] for the largest channel [max], and the component of a
    largest channel is 0: never are cyan, magenta and yellow all above
    0. *)
Theorem rgb2cmyk_largest_channel (r g b : Z) :
  channel r → channel g → channel b →
  let M := Z.max r (Z.max g b) in
  ∃ fC fM fY,
    rgb2cmyk (of_Z r) (of_Z g) (of_Z b)
    = [fC; fM; fY; (1 - of_Z M / 255)%float]
    ∧ (r = M → fC = 0%float) ∧ (g = M → fM = 0%float)
    ∧ (b = M → fY = 0%float)
    ∧ (r = M ∨ g = M ∨ b = M).
Proof.
  intros Hr Hg Hb M. rewrite rgb2cmyk_components. cbv zeta.
  rewrite rgb2cmyk_fK_cmy by done. fold M.
  assert (channel M) as HM by (unfold channel, M in *; lia).
  assert (r = M ∨ g = M ∨ b = M) as Hmax by (unfold M; lia).
  clearbody M.
  do 3 eexists. split; [reflexivity|].
  repeat split; try done; intros E; rewrite E; by apply largest_component.
Qed.

Lemma rgb2cmyk_largest_channel_witness :
  ∃ fC fM fY,
    rgb2cmyk 12 56 34 = [fC; fM; fY; (1 - 56 / 255)%float]
    ∧ (12 = 56 → fC = 0%float) ∧ (56 = 56 → fM = 0%float)
    ∧ (34 = 56 → fY = 0%float)
    ∧ (12 = 56 ∨ 56 = 56 ∨ 34 = 56).
Proof.
  exact (rgb2cmyk_largest_channel 12 56 34
           ltac:(unfold channel; lia) ltac:(unfold channel; lia)
           ltac:(unfold channel; lia)).
Defined.

Lemma mul_zero c :
  ffinite c = true → ∃ s, Prim2SF (c * 0) = S754_zero s.
Proof.
  unfold ffinite. rewrite FloatAxioms.mul_spec.
  change (Prim2SF 0) with (S754_zero false).
  destruct (Prim2SF c) as [s|s| |s m e]; try done; intros _; by eexists.
Qed.

Lemma rgb_component_black c :
  ffinite c = true → rgb_component c 1 = 0%float.
Proof.
  intros Hc. unfold rgb_component.
  change (1 - 1)%float with 0%float.
  destruct (mul_zero c Hc) as [s Hs].
  by destruct (zero_cases _ s Hs) as [-> | ->].
Qed.

(** With the black component 1, [cmyk2rgb] gives black, [(0, 0, 0)],
    whatever the three other components are, numbers of any size. *)
Theorem cmyk2rgb_black (fC fM fY : float) :
  ffinite fC = true → ffinite fM = true → ffinite fY = true →
  cmyk2rgb fC fM fY 1 = [0; 0; 0]%float.
Proof.
  intros HC HM HY.
  change (cmyk2rgb fC fM fY 1)
    with [rgb_component fC 1; rgb_component fM 1; rgb_component fY 1].
  by rewrite !rgb_component_black.
Qed.

Lemma cmyk2rgb_black_witness : cmyk2rgb 0.5 0.25 7 1 = [0; 0; 0]%float.
Proof. exact (cmyk2rgb_black 0.5 0.25 7 eq_refl eq_refl eq_refl). Defined.

(** [formatCmykOutput] cannot format an array twice.  With
    [isCMYKPercent] other than ["true"], the first call on an array of
    numbers from 0 to 1 replaces them by strings, and a second call on the
    same array, if it is not empty, ends in a TypeError: a string has no
    method [toFixed]. *)
Theorem formatCmykOutput_twice p (a : loc) (h : heap) (vs : list float) :
  isCMYKPercent p ≠ str "true" →
  h !! a = Some (VNum <$> vs) → vs ≠ [] →
  Forall (λ v, unit_range v = true) vs →
  ∃ h', formatCmykOutput p a h = Ok (a, h')
        ∧ formatCmykOutput p a h' = Err TypeError.
Proof.
  intros Hp Ha Hne Hvs.
  destruct (format_body_all p vs Hvs) as (ss & Hf & Hb).
  exists (<[a := VStr <$> ss]> h). split.
  - by apply (formatCmykOutput_spec p a h _ _ Ha).
  - unfold formatCmykOutput. rewrite lookup_insert_eq.
    destruct (eqb (isCMYKPercent p) (str "true")) eqn:E;
      [by apply eqb_eq in E|].
    apply Forall2_length in Hf.
    destruct ss as [|s ss]; [by destruct vs|].
    cbn [fmap list_fmap length format_loop].
    rewrite lookup_insert_eq. reflexivity.
Qed.

Lemma formatCmykOutput_twice_witness :
  ∃ h', formatCmykOutput initial_prefs 7 example_heap = Ok (7%nat, h')
        ∧ formatCmykOutput initial_prefs 7 h' = Err TypeError.
Proof.
  exact (formatCmykOutput_twice initial_prefs 7 example_heap
           [0.5; 0.25; 1; 0]%float
           ltac:(vm_compute; discriminate) eq_refl ltac:(discriminate)
           ltac:(repeat constructor)).
Defined.

(** [hex2rgb] of a string of six digits of the class of
    [makeValidHex] is three integers from 0 to 255, those that the three
    pairs of digits write. *)
Theorem hex2rgb_channels (h : jsstring) :
  length h = 6%nat → forallb in_class h = true →
  ∃ r g b,
    (channel r ∧ channel g ∧ channel b)
    ∧ h = two_hex_digits r ++ two_hex_digits g ++ two_hex_digits b
    ∧ hex2rgb h = [of_Z r; of_Z g; of_Z b].
Proof.
  intros Hlen Hclass.
  destruct (class_hex_digits h Hlen Hclass) as (r & g & b & Hr & Hg & Hb & ->).
  exists r, g, b. split; [done|]. split; [done|]. by apply hex2rgb_hex_digits.
Qed.

Lemma hex2rgb_channels_witness :
  ∃ r g b,
    (channel r ∧ channel g ∧ channel b)
    ∧ str "FF0080" = two_hex_digits r ++ two_hex_digits g ++ two_hex_digits b
    ∧ hex2rgb (str "FF0080") = [of_Z r; of_Z g; of_Z b].
Proof. exact (hex2rgb_channels (str "FF0080") eq_refl eq_refl). Defined.

(** [hex2rgb] checks nothing: of a string that is too short to hold
    the two units of a channel at all, it returns NaN for that channel. *)
Theorem hex2rgb_short (s : jsstring) :
  (length s <= 4)%nat →
  ∃ iR iG,
    hex2rgb s = [iR; iG; nan]
    ∧ ((length s <= 2)%nat → iG = nan)
    ∧ (s = [] → iR = nan).
Proof.
  intros Hlen. unfold hex2rgb. do 2 eexists. split; [|split].
  - cbv zeta. do 2 f_equal. f_equal. unfold substr.
    rewrite drop_ge; [done|].
    destruct (Z.ltb_spec 4 0); [lia|]. lia.
  - intros H2. cbv zeta. unfold substr.
    rewrite drop_ge; [done|].
    destruct (Z.ltb_spec 2 0); [lia|]. lia.
  - by intros ->.
Qed.

Lemma hex2rgb_short_witness :
  ∃ iR iG,
    hex2rgb (str "F") = [iR; iG; nan]
    ∧ ((length (str "F") <= 2)%nat → iG = nan)
    ∧ (str "F" = [] → iR = nan).
Proof. exact (hex2rgb_short (str "F") ltac:(vm_compute; lia)). Defined.

(** [updateColorDemo], given the string of [rgb2hex], hands the six
    digits with [#] before them to the demo area when [isHexSharp] is
    ["true"] ([rgb2hex] has put the [#]) or ["false"] ([updateColorDemo]
    puts it); with any other value of [isHexSharp], which the local storage
    can hold, the colour goes without [#].  Nothing else of the page
    changes. *)
Theorem updateColorDemo_colour (p : prefs) (r g b : Z) (d : page) :
  channel r → channel g → channel b →
  let d' := updateColorDemo p (rgb2hex p (of_Z r) (of_Z g) (of_Z b)) d in
  let digits := two_hex_digits r ++ two_hex_digits g ++ two_hex_digits b in
  (isHexSharp p = str "true" ∨ isHexSharp p = str "false" →
   colorDemo d' = Some (str "#" ++ digits))
  ∧ (isHexSharp p ≠ str "true" → isHexSharp p ≠ str "false" →
     colorDemo d' = Some digits)
  ∧ d' = {| rgb_R := rgb_R d; rgb_G := rgb_G d; rgb_B := rgb_B d;
            cmyk_C := cmyk_C d; cmyk_M := cmyk_M d; cmyk_Y := cmyk_Y d;
            cmyk_K := cmyk_K d; hex := hex d;
            hex_sharp := hex_sharp d; cmyk_percent := cmyk_percent d;
            colorDemo := colorDemo d'; alerts := alerts d |}.
Proof.
  intros Hr Hg Hb d' digits. unfold d'.
  destruct (valid_channel r Hr) as (_ & _ & _ & Vr).
  destruct (valid_channel g Hg) as (_ & _ & _ & Vg).
  destruct (valid_channel b Hb) as (_ & _ & _ & Vb).
  rewrite (rgb2hex_channel_value p _ _ _ r g b) by done.
  rewrite updateColorDemo_shown. cbn [colorDemo]. fold digits.
  change (hex_digits r g b) with digits. unfold demo_colour.
  split; [|split; [|done]].
  - intros [-> | ->]; reflexivity.
  - intros H1 H2.
    destruct (eqb (isHexSharp p) (str "true")) eqn:E1;
      [by apply eqb_eq in E1|].
    destruct (eqb (isHexSharp p) (str "false")) eqn:E2;
      [by apply eqb_eq in E2|]. done.
Qed.

Lemma updateColorDemo_colour_witness :
  colorDemo (updateColorDemo sharp_prefs (rgb2hex sharp_prefs 255 0 128)
               example_page)
  = Some (str "#FF0080").
Proof.
  exact (proj1 (updateColorDemo_colour sharp_prefs 255 0 128 example_page
                  ltac:(unfold channel; lia) ltac:(unfold channel; lia)
                  ltac:(unfold channel; lia))
           (or_introl eq_refl)).
Defined.

(** ** The CMYK handler, run again *)

Lemma fixed_reread_table_ok : all_below 1001 fixed_reread_check = true.
Proof. vm_cast_no_check (eq_refl true). Qed.

Lemma percent_reread_table_ok : all_below 101 percent_reread_check = true.
Proof. vm_cast_no_check (eq_refl true). Qed.

(** A formatted value that [cmykChanged] reads again is formatted to the
    same string. *)
Lemma format_of_reread p v c :
  isCMYKPercent p = str "true" ∨ isCMYKPercent p = str "false" →
  unit_range v = true → format_of p v c →
  format_of p (makeValidCmyk (read_cmyk p c)) c.
Proof.
  intros Hp Hv [Hc _].
  assert (format_body p (VNum (makeValidCmyk (read_cmyk p c))) = Ok (VStr c))
    as Hre.
  { destruct Hp as [Hp|Hp].
    - assert (format_body p = format_percent) as Hb
        by (unfold format_body; by rewrite Hp).
      assert (read_cmyk p c = (parseInt c 10 / 100)%float) as ->
        by (unfold read_cmyk; by rewrite Hp).
      rewrite Hb in *.
      destruct (format_percent_unit v Hv) as (s & Hs & n & Hn & _ & _ & ->).
      rewrite Hs in Hc. injection Hc as <-.
      assert (percent_reread_check n = true) as H
        by (apply (all_below_spec 101 percent_reread_check);
            [apply percent_reread_table_ok|lia]).
      unfold percent_reread_check in H. cbv zeta in H.
      unfold format_percent.
      destruct (number_to_string _) as [s|]; [|done].
      apply eqb_eq in H. cbn [mbind res_bind]. by rewrite H.
    - assert (format_body p = format_fixed) as Hb
        by (unfold format_body; by rewrite Hp).
      assert (read_cmyk p c = parseFloat (replace c 44 46)) as ->
        by (unfold read_cmyk; by rewrite Hp).
      rewrite Hb in *.
      destruct (toFixed_unit v Hv) as (n & Hn & Hfix & _).
      unfold format_fixed in Hc. rewrite Hfix in Hc.
      cbn [mbind res_bind] in Hc. injection Hc as <-.
      assert (fixed_reread_check n = true) as H
        by (apply (all_below_spec 1001 fixed_reread_check);
            [apply fixed_reread_table_ok|lia]).
      unfold fixed_reread_check in H. cbv zeta in H.
      unfold format_fixed.
      destruct (toFixed (makeValidCmyk _) 3) as [s|]; [|done].
      apply eqb_eq in H. cbn [mbind res_bind]. by rewrite H. }
  split; [done|].
  destruct (format_body_unit p _ (makeValidCmyk_unit (read_cmyk p c)))
    as (s & Hs & Hf).
  rewrite Hre in Hs. by injection Hs as <-.
Qed.

(** [cmykChanged] reads the four CMYK inputs, and keeps the switches and
    the messages: two pages that agree on these are left the same. *)
Lemma cmykChanged_reads p d1 d2 :
  cmyk_C d1 = cmyk_C d2 → cmyk_M d1 = cmyk_M d2 →
  cmyk_Y d1 = cmyk_Y d2 → cmyk_K d1 = cmyk_K d2 →
  hex_sharp d1 = hex_sharp d2 → cmyk_percent d1 = cmyk_percent d2 →
  alerts d1 = alerts d2 →
  cmykChanged p d1 = cmykChanged p d2.
Proof.
  intros HC HM HY HK H1 H2 H3. unfold cmykChanged, updateColorDemo.
  cbn [rgb_R rgb_G rgb_B cmyk_C cmyk_M cmyk_Y cmyk_K hex hex_sharp
       cmyk_percent colorDemo alerts].
  by rewrite HC, HM, HY, HK, H1, H2, H3.
Qed.

(** [cmykChanged] settles at its second run.  With [isCMYKPercent]
    ["true"] or ["false"], run on the page that it has left, it reads the
    formatted values and leaves the four CMYK inputs as they are; the RGB
    and HEX inputs follow the values read, and a third run changes nothing
    at all. *)
Theorem cmykChanged_settles (p : prefs) (d d' : page) :
  isCMYKPercent p = str "true" ∨ isCMYKPercent p = str "false" →
  cmykChanged p d = Ok d' →
  ∃ d'',
    cmykChanged p d' = Ok d''
    ∧ (cmyk_C d'' = cmyk_C d' ∧ cmyk_M d'' = cmyk_M d'
       ∧ cmyk_Y d'' = cmyk_Y d' ∧ cmyk_K d'' = cmyk_K d')
    ∧ cmykChanged p d'' = Ok d''.
Proof.
  intros Hp Hd.
  destruct (cmykChanged_spec p d)
    as (r & g & b & c & m & y & k & _ & _ & _ & Hf & Hd').
  rewrite Hd' in Hd. injection Hd as <-.
  apply Forall2_cons_1 in Hf as [HC Hf].
  apply Forall2_cons_1 in Hf as [HM Hf].
  apply Forall2_cons_1 in Hf as [HY Hf].
  apply Forall2_cons_1 in Hf as [HK _].
  pose proof (format_of_reread p _ c Hp (makeValidCmyk_unit _) HC) as RC.
  pose proof (format_of_reread p _ m Hp (makeValidCmyk_unit _) HM) as RM.
  pose proof (format_of_reread p _ y Hp (makeValidCmyk_unit _) HY) as RY.
  pose proof (format_of_reread p _ k Hp (makeValidCmyk_unit _) HK) as RK.
  set (d1 := shows p d r g b c m y k).
  destruct (cmykChanged_spec p d1)
    as (r' & g' & b' & c' & m' & y' & k' & _ & _ & _ & Hf' & Hd1).
  apply Forall2_cons_1 in Hf' as [HC' Hf'].
  apply Forall2_cons_1 in Hf' as [HM' Hf'].
  apply Forall2_cons_1 in Hf' as [HY' Hf'].
  apply Forall2_cons_1 in Hf' as [HK' _].
  cbn [d1 shows cmyk_C cmyk_M cmyk_Y cmyk_K] in HC', HM', HY', HK'.
  pose proof (format_of_inj _ _ _ _ RC HC') as <-.
  pose proof (format_of_inj _ _ _ _ RM HM') as <-.
  pose proof (format_of_inj _ _ _ _ RY HY') as <-.
  pose proof (format_of_inj _ _ _ _ RK HK') as <-.
  exists (shows p d1 r' g' b' c m y k). split; [done|]. split; [done|].
  by rewrite (cmykChanged_reads p _ d1).
Qed.

Lemma cmykChanged_settles_witness :
  ∃ d'',
    cmykChanged initial_prefs example_cmyk_shown = Ok d''
    ∧ (cmyk_C d'' = cmyk_C example_cmyk_shown
       ∧ cmyk_M d'' = cmyk_M example_cmyk_shown
       ∧ cmyk_Y d'' = cmyk_Y example_cmyk_shown
       ∧ cmyk_K d'' = cmyk_K example_cmyk_shown)
    ∧ cmykChanged initial_prefs d'' = Ok d''.
Proof.
  exact (cmykChanged_settles initial_prefs example_page example_cmyk_shown
           (or_intror eq_refl) ltac:(vm_compute; reflexivity)).
Defined.

(** ** The handlers, one after the other *)

(** After [cmykChanged] the RGB and HEX inputs agree: [rgbChanged]
    and [hexChanged], run on the page that [cmykChanged] has left, leave
    the same page as each other, with the RGB inputs, the HEX input and
    the colour of the demo area as they are; the CMYK inputs are computed
    again, from the channels. *)
Theorem rgb_hex_after_cmykChanged (p : prefs) (d d' : page) :
  cmykChanged p d = Ok d' →
  ∃ d'',
    rgbChanged p d' = Ok d''
    ∧ hexChanged p d' = Ok (ReturnsUndefined, d'')
    ∧ (rgb_R d'' = rgb_R d' ∧ rgb_G d'' = rgb_G d' ∧ rgb_B d'' = rgb_B d')
    ∧ hex d'' = hex d' ∧ colorDemo d'' = colorDemo d'.
Proof.
  destruct (cmykChanged_spec p d)
    as (r & g & b & c & m & y & k & (Hr & Hg & Hb) & _ & _ & _ & ->).
  intros [= <-]. set (d1 := shows p d r g b c m y k).
  destruct (valid_channel r Hr) as (Vr1 & Vr2 & _ & Vr).
  destruct (valid_channel g Hg) as (Vg1 & Vg2 & _ & Vg).
  destruct (valid_channel b Hb) as (Vb1 & Vb2 & _ & Vb).
  destruct (rgbChanged_spec p d1 r g b Hr Hg Hb)
    as (c1 & m1 & y1 & k1 & Hf1 & H1).
  { unfold d1. cbn [shows rgb_R]. by rewrite Vr2, Vr1. }
  { unfold d1. cbn [shows rgb_G]. by rewrite Vg2, Vg1. }
  { unfold d1. cbn [shows rgb_B]. by rewrite Vb2, Vb1. }
  destruct (hexChanged_spec p d1 r g b Hr Hg Hb)
    as (c2 & m2 & y2 & k2 & Hf2 & H2).
  { unfold d1. cbn [shows hex]. by apply makeValidHex_shown. }
  pose proof (format_of_unique _ _ _ _ Hf1 Hf2) as [= <- <- <- <-].
  exists (shows p d1 r g b c1 m1 y1 k1). by repeat split.
Qed.

Lemma rgb_hex_after_cmykChanged_witness :
  ∃ d'',
    rgbChanged initial_prefs example_cmyk_shown = Ok d''
    ∧ hexChanged initial_prefs example_cmyk_shown = Ok (ReturnsUndefined, d'')
    ∧ (rgb_R d'' = rgb_R example_cmyk_shown
       ∧ rgb_G d'' = rgb_G example_cmyk_shown
       ∧ rgb_B d'' = rgb_B example_cmyk_shown)
    ∧ hex d'' = hex example_cmyk_shown
    ∧ colorDemo d'' = colorDemo example_cmyk_shown.
Proof.
  exact (rgb_hex_after_cmykChanged initial_prefs example_page
           example_cmyk_shown ltac:(vm_compute; reflexivity)).
Defined.

Lemma percent_as_fixed_table_ok : all_below 101 percent_as_fixed_check = true.
Proof. vm_cast_no_check (eq_refl true). Qed.

Lemma fixed_as_percent_table_ok : all_below 1000 fixed_as_percent_check = true.
Proof. vm_cast_no_check (eq_refl true). Qed.

(** [cmykChanged] misreads the values formatted under the other
    preference.  With [isCMYKPercent] ["false"], the percent form of 1 to
    100 is read as the number before the sign, and the value is 1; with any
    other [isCMYKPercent], the three decimals of a value below 1 are read
    up to the point, and the value is 0. *)
Theorem cmykChanged_misreads (p : prefs) (n : Z) :
  (isCMYKPercent p = str "false" → 1 <= n <= 100 →
   makeValidCmyk (read_cmyk p (decimal n ++ str " %")) = 1%float)
  ∧ (isCMYKPercent p ≠ str "false" → 0 <= n <= 999 →
     makeValidCmyk (read_cmyk p (fixed_digits n 3)) = 0%float).
Proof.
  split.
  - intros Hp Hn. unfold read_cmyk. rewrite Hp.
    change (eqb (str "false") (str "false")) with true. cbv iota.
    assert (percent_as_fixed_check n = true) as H
      by (apply (all_below_spec 101 percent_as_fixed_check);
          [apply percent_as_fixed_table_ok|lia]).
    unfold percent_as_fixed_check in H. apply orb_true_iff in H as [H|H].
    + apply Z.eqb_eq in H. lia.
    + by apply feqb_eq in H.
  - intros Hp Hn. unfold read_cmyk.
    destruct (eqb (isCMYKPercent p) (str "false")) eqn:E;
      [by apply eqb_eq in E|].
    apply feqb_eq. change (fixed_as_percent_check n = true).
    apply (all_below_spec 1000 fixed_as_percent_check);
      [apply fixed_as_percent_table_ok|lia].
Qed.

Lemma cmykChanged_misreads_witness :
  makeValidCmyk (read_cmyk initial_prefs (str "50 %")) = 1%float
  ∧ makeValidCmyk (read_cmyk percent_prefs (str "0.500")) = 0%float.
Proof.
  exact (conj
           (proj1 (cmykChanged_misreads initial_prefs 50) eq_refl
              ltac:(lia))
           (proj2 (cmykChanged_misreads percent_prefs 500)
              ltac:(vm_compute; discriminate) ltac:(lia))).
Defined.
